(** * PQC_grafana: the hybrid-encryption benchmark client and its two key servers

    A shallow embedding of the three Go programs of the repository:

    - the RSA public-key server   ([rsa-benchmark/main.go]),
    - the ML-KEM public-key server,
    - the AES / RSA / ML-KEM benchmark client (the ticker loop of [main],
      [fetchPublicKey], [fetchMLKEMPublicKey], [encryptAES], [encryptRSA],
      [encryptMLKEM]).

    Go's [float64] is modelled by the binary64 instance of [SpecFloat], Go's
    [int] and [time.Duration] by [Z] with the 64-bit wrap-around written out,
    [[]byte] by [list byte] and Go strings by [string].  The library calls the
    programs make ([encoding/base64], [crypto/cipher], [time]) are modelled
    after the library's behaviour; the cryptographic primitives themselves
    (RSA-OAEP, Kyber encapsulation, the AES block function, key parsing) are
    parameters of the development. *)

From Stdlib Require Import ZArith List Lia Bool Ascii String.
From Stdlib Require Import Strings.Byte.
From Stdlib Require Import Floats.SpecFloat.
Import ListNotations.

Open Scope Z_scope.

(** ** Errors and results *)

(** The error values the three programs create with [fmt.Errorf], or receive
    from a library call and hand on. *)
Inductive Error : Type :=
| HTTPGetError            (* "HTTP GETエラー" *)
| HTTPStatusError (code : Z)   (* "HTTPステータスエラー: %d" *)
| JSONDecodeError         (* "JSONデコードエラー" *)
| Base64DecodeError       (* "Base64デコードエラー", base64.CorruptInputError *)
| KeyParseError           (* "公開鍵のパースエラー" / "公開鍵のデシリアライズエラー" *)
| KeyTypeError            (* "RSA公開鍵への変換エラー" / "ML-KEM公開鍵への変換エラー" *)
| RandReadError           (* io.ReadFull(rand.Reader, _) failed *)
| KeySizeError (n : Z)    (* aes.KeySizeError *)
| RSAEncryptError         (* rsa.EncryptOAEP failed *)
| EncapsulateError        (* scheme.Encapsulate failed *)
| KeyGenError             (* key generation failed (servers) *)
| MarshalError.           (* public-key marshalling failed (servers) *)

Inductive Result (A : Type) : Type :=
| Ok (a : A)
| Err (e : Error).
Arguments Ok {A} a.
Arguments Err {A} e.

Definition rbind {A B} (r : Result A) (k : A -> Result B) : Result B :=
  match r with
  | Ok a => k a
  | Err e => Err e
  end.

Definition is_ok {A} (r : Result A) : bool :=
  match r with Ok _ => true | Err _ => false end.

(** ** Bytes *)

Definition byte_to_Z (b : byte) : Z := Z.of_N (Byte.to_N b).

(** Go's conversion [byte(x)] of an integer: the low eight bits. *)
Definition byte_of_Z (z : Z) : byte :=
  match Byte.of_N (Z.to_N (z mod 256)) with
  | Some b => b
  | None => x00
  end.

(** ** encoding/base64, [StdEncoding]

    The standard alphabet with [=] padding.  [EncodeToString] follows
    [Encoding.Encode]: whole groups of three bytes first, then the remainder
    of one or two bytes, padded.  [DecodeString] follows [Encoding.Decode]
    and [decodeQuantum]: carriage returns and line feeds are skipped wherever
    they stand, every quantum is four alphabet characters, only the last one
    may end in one or two padding characters, nothing may follow the padding,
    and (the encoding not being strict) the unused low bits of a padded
    quantum are not checked. *)
Module Base64.

Definition encodeStd : string :=
  "ABCDEFGHIJKLMNOPQRSTUVWXYZabcdefghijklmnopqrstuvwxyz0123456789+/".

Definition padChar : ascii := "="%char.

(** [enc.encode[v]] *)
Definition encode (v : Z) : ascii :=
  match String.get (Z.to_nat v) encodeStd with
  | Some c => c
  | None => padChar
  end.

Fixpoint index_from (c : ascii) (s : string) (i : Z) : Z :=
  match s with
  | EmptyString => 255
  | String d t => if Ascii.eqb c d then i else index_from c t (i + 1)
  end.

(** [enc.decodeMap[c]]: the position of [c] in the alphabet, [0xff] for
    every other byte. *)
Definition decodeMap (c : ascii) : Z := index_from c encodeStd 0.

Fixpoint EncodeToString (src : list byte) : string :=
  match src with
  | [] => EmptyString
  | [b0] =>
      let val := Z.shiftl (byte_to_Z b0) 16 in
      String (encode (Z.land (Z.shiftr val 18) 63))
        (String (encode (Z.land (Z.shiftr val 12) 63))
           (String padChar (String padChar EmptyString)))
  | [b0; b1] =>
      let val := Z.lor (Z.shiftl (byte_to_Z b0) 16) (Z.shiftl (byte_to_Z b1) 8) in
      String (encode (Z.land (Z.shiftr val 18) 63))
        (String (encode (Z.land (Z.shiftr val 12) 63))
           (String (encode (Z.land (Z.shiftr val 6) 63))
              (String padChar EmptyString)))
  | b0 :: b1 :: b2 :: rest =>
      let val := Z.lor (Z.lor (Z.shiftl (byte_to_Z b0) 16)
                              (Z.shiftl (byte_to_Z b1) 8))
                       (byte_to_Z b2) in
      String (encode (Z.land (Z.shiftr val 18) 63))
        (String (encode (Z.land (Z.shiftr val 12) 63))
           (String (encode (Z.land (Z.shiftr val 6) 63))
              (String (encode (Z.land val 63))
                 (EncodeToString rest))))
  end.

Definition is_newline (c : ascii) : bool :=
  Ascii.eqb c "010"%char || Ascii.eqb c "013"%char.

Definition is_pad (c : ascii) : bool := Ascii.eqb c padChar.

Definition no_more (l : list ascii) : bool :=
  match l with [] => true | _ => false end.

(** The quanta of an input from which the newlines are already taken out. *)
Fixpoint decodeQuanta (src : list ascii) : Result (list byte) :=
  match src with
  | [] => Ok []
  | c0 :: c1 :: c2 :: c3 :: rest =>
      let v0 := decodeMap c0 in
      let v1 := decodeMap c1 in
      let v2 := decodeMap c2 in
      let v3 := decodeMap c3 in
      if (v0 =? 255) || (v1 =? 255) then Err Base64DecodeError
      else if v2 =? 255 then
        (* "xx==": one byte *)
        if is_pad c2 && is_pad c3 && no_more rest then
          let val := Z.lor (Z.shiftl v0 18) (Z.shiftl v1 12) in
          Ok [byte_of_Z (Z.shiftr val 16)]
        else Err Base64DecodeError
      else if v3 =? 255 then
        (* "xxx=": two bytes *)
        if is_pad c3 && no_more rest then
          let val := Z.lor (Z.lor (Z.shiftl v0 18) (Z.shiftl v1 12))
                           (Z.shiftl v2 6) in
          Ok [byte_of_Z (Z.shiftr val 16); byte_of_Z (Z.shiftr val 8)]
        else Err Base64DecodeError
      else
        let val := Z.lor (Z.lor (Z.lor (Z.shiftl v0 18) (Z.shiftl v1 12))
                                (Z.shiftl v2 6)) v3 in
        rbind (decodeQuanta rest) (fun bs =>
          Ok (byte_of_Z (Z.shiftr val 16) :: byte_of_Z (Z.shiftr val 8)
                :: byte_of_Z val :: bs))
  | _ => Err Base64DecodeError
  end.

Definition DecodeString (s : string) : Result (list byte) :=
  decodeQuanta (filter (fun c => negb (is_newline c)) (list_ascii_of_string s)).

End Base64.

(** ** float64 and time.Duration *)

(** Go's [float64]: IEEE 754 binary64, round to nearest even. *)
Module Float64.

Definition float64 : Type := spec_float.
Definition prec : Z := 53.
Definition emax : Z := 1024.

(** The conversion [float64(n)] of an integer. *)
Definition of_int (n : Z) : float64 := binary_normalize prec emax n 0 false.

Definition zero : float64 := S754_zero false.
Definition add (x y : float64) : float64 := SFadd prec emax x y.
Definition div (x y : float64) : float64 := SFdiv prec emax x y.
(** [x > y] *)
Definition gtb (x y : float64) : bool := SFltb y x.

Definition is_zero (x : float64) : bool :=
  match x with S754_zero _ => true | _ => false end.
Definition is_nan (x : float64) : bool :=
  match x with S754_nan => true | _ => false end.
Definition is_inf (x : float64) : bool :=
  match x with S754_infinity _ => true | _ => false end.

(** The real number a finite [float64] stands for is [num / den]. *)
Definition num (x : float64) : Z :=
  match x with
  | S754_finite s m e =>
      (if s then -1 else 1) * Z.pos m * (if 0 <=? e then 2 ^ e else 1)
  | _ => 0
  end.
Definition den (x : float64) : Z :=
  match x with
  | S754_finite _ _ e => if 0 <=? e then 1 else 2 ^ (- e)
  | _ => 1
  end.

(** [|x - p/q| <= a/b], for a finite [x] and positive [q] and [b]. *)
Definition dist_le (x : float64) (p q a b : Z) : Prop :=
  Z.abs (num x * q - p * den x) * b <= a * (den x * q).

End Float64.
Import Float64.

(** Go's [int] and [int64] on a 64-bit platform: two's complement
    wrap-around. *)
Definition wrap64 (z : Z) : Z := (z + 2 ^ 63) mod 2 ^ 64 - 2 ^ 63.

Definition len {A} (l : list A) : Z := Z.of_nat (List.length l).

(** [time.Duration]: a count of nanoseconds. *)
Definition Duration : Type := Z.
Definition Second : Duration := 1000000000.
Definition Millisecond : Duration := 1000000.

(** [func (d Duration) Seconds() float64]; Go's [/] and [%] truncate. *)
Definition Seconds (d : Duration) : float64 :=
  let sec := Z.quot d Second in
  let nsec := Z.rem d Second in
  add (of_int sec) (div (of_int nsec) (of_int 1000000000)).

(** ** crypto/rand

    [rand.Reader] is the stream of bytes it will deliver; a read of more
    bytes than it can deliver is the read error. *)
Definition Rand : Type := list byte.

(** [io.ReadFull(rand.Reader, buf)] for a buffer of [n] bytes. *)
Definition ReadFull (rnd : Rand) (n : Z) : Result (list byte) * Rand :=
  if n <=? len rnd
  then (Ok (firstn (Z.to_nat n) rnd), skipn (Z.to_nat n) rnd)
  else (Err RandReadError, []).

(** ** Keys and cryptographic primitives *)

(** [rsa.PublicKey] *)
Record rsa_PublicKey : Type := { N : Z; E : Z }.

(** What [x509.ParsePKIXPublicKey] can return: an RSA key or a key of one
    of the other algorithms. *)
Inductive PKIXKey : Type :=
| PKIX_RSA (k : rsa_PublicKey)
| PKIX_other.

(** [kyber768.PublicKey], kept as its packed bytes. *)
Record kyber768_PublicKey : Type := { packed : list byte }.

(** What [kem.Scheme.UnmarshalBinaryPublicKey] returns: a [kem.PublicKey]. *)
Inductive kem_PublicKey : Type :=
| KEM_kyber768 (k : kyber768_PublicKey)
| KEM_other.

(** The library primitives the programs call and do not implement. *)
Class Primitives : Type := {
  (** the AES block function under a key and its inverse:
      [block.Encrypt], [block.Decrypt] *)
  aes_Encrypt : list byte -> list byte -> list byte;
  aes_Decrypt : list byte -> list byte -> list byte;
  (** [x509.ParsePKIXPublicKey], [x509.MarshalPKIXPublicKey] *)
  ParsePKIXPublicKey : list byte -> Result PKIXKey;
  MarshalPKIXPublicKey : rsa_PublicKey -> Result (list byte);
  (** [kyber768.Scheme().UnmarshalBinaryPublicKey] *)
  UnmarshalBinaryPublicKey : list byte -> Result kem_PublicKey;
  (** [rsa.EncryptOAEP(sha256.New(), rand.Reader, pub, msg, nil)] *)
  EncryptOAEP : Rand -> rsa_PublicKey -> list byte -> Result (list byte) * Rand;
  (** [kyber768.Scheme().Encapsulate(pk)], which draws its seed from
      [rand.Reader]: ciphertext and shared secret *)
  Encapsulate : Rand -> kyber768_PublicKey -> Result (list byte * list byte) * Rand;
  (** [rsa.GenerateKey(rand.Reader, bits)]: the public half *)
  rsa_GenerateKey : Rand -> Z -> Result rsa_PublicKey * Rand;
  (** [kyber768.GenerateKeyPair(rand.Reader)]: the public half *)
  kyber768_GenerateKeyPair : Rand -> Result kyber768_PublicKey * Rand
}.

(** ** crypto/aes and crypto/cipher *)
Module AES.

Definition BlockSize : Z := 16.

(** [cipher.Block], as [aes.NewCipher] returns it. *)
Record Block : Type := {
  Encrypt : list byte -> list byte;
  Decrypt : list byte -> list byte
}.

(** The key lengths of AES-128, AES-192 and AES-256. *)
Definition valid_key_size (k : Z) : bool := (k =? 16) || (k =? 24) || (k =? 32).

Definition NewCipher `{Primitives} (key : list byte) : Result Block :=
  let k := len key in
  if valid_key_size k
  then Ok {| Encrypt := aes_Encrypt key; Decrypt := aes_Decrypt key |}
  else Err (KeySizeError k).

Definition xor_byte (a b : byte) : byte :=
  byte_of_Z (Z.lxor (byte_to_Z a) (byte_to_Z b)).

(** [subtle.XORBytes]: as many bytes as the shorter operand has. *)
Fixpoint XORBytes (x y : list byte) : list byte :=
  match x, y with
  | a :: x', b :: y' => xor_byte a b :: XORBytes x' y'
  | _, _ => []
  end.

(** [copy(dst, out)] as a value: [out] laid over the front of [dst] and
    cut to the length of [dst]. *)
Definition overwrite (dst out : list byte) : list byte :=
  firstn (List.length dst) out ++ skipn (List.length out) dst.

(** The loop of [cbcEncrypter.CryptBlocks] over the buffers [dst] and
    [src]: the source block is xored with the IV into the destination
    block, that block is encrypted in place and is the IV of the next one.
    [n] bounds the number of blocks. *)
Fixpoint CryptBlocks_loop (b : Block) (n : nat) (iv dst src : list byte) : list byte :=
  match n with
  | O => dst
  | S n' =>
      match src with
      | [] => dst
      | _ =>
          let d := firstn (Z.to_nat BlockSize) dst in
          let d := overwrite d (XORBytes (firstn (Z.to_nat BlockSize) src) iv) in
          let d := overwrite d (Encrypt b d) in
          d ++ CryptBlocks_loop b n' d (skipn (Z.to_nat BlockSize) dst)
                 (skipn (Z.to_nat BlockSize) src)
      end
  end.

(** [cipher.NewCBCEncrypter(block, iv).CryptBlocks(dst, src)]: the buffer
    [dst] afterwards.  The library panics unless [iv] is one block long,
    [src] is a whole number of blocks and [dst] is at least as long. *)
Definition CryptBlocks (b : Block) (iv dst src : list byte) : list byte :=
  CryptBlocks_loop b (List.length src) iv dst src.


(** CBC decryption: every block is deciphered and xored with the
    ciphertext block before it, the first one with the IV. *)
Fixpoint DecryptBlocks_loop (b : Block) (n : nat) (iv src : list byte) : list byte :=
  match n with
  | O => []
  | S n' =>
      match src with
      | [] => []
      | _ =>
          let blk := firstn (Z.to_nat BlockSize) src in
          XORBytes (Decrypt b blk) iv
            ++ DecryptBlocks_loop b n' blk (skipn (Z.to_nat BlockSize) src)
      end
  end.

(** What [cipher.NewCBCDecrypter(block, iv)] makes of a ciphertext. *)
Definition DecryptBlocks (b : Block) (iv src : list byte) : list byte :=
  DecryptBlocks_loop b (List.length src) iv src.

End AES.

(** ** net/http and encoding/json, as far as the client sees them *)

(** The JSON object a key server answers with.  A field the object lacks
    decodes to the zero value of its type.  [JSON p] below is a body that
    [json.Decoder] decodes into the struct of the client, to the values
    [p]; a body it refuses (no JSON, a field of another type, a [key_size]
    that is no [int]) is [BadJSON]. *)
Record PublicKeyJSON : Type := {
  public_key : string;
  algorithm : string;
  key_size : Z
}.

Inductive Body : Type :=
| BadJSON
| JSON (p : PublicKeyJSON).

(** The outcome of [http.Get(url)] followed by reading the body. *)
Inductive HTTPResult : Type :=
| GetFailed
| Response (StatusCode : Z) (body : Body).

Definition StatusOK : Z := 200.


(** ** The benchmark client *)
Module Client.

Inductive Gauge : Type :=
| rsaEncryptedKeySize
| mlkemEncryptedKeySize
| rsaPublicKeySize
| mlkemPublicKeySize
| rsaEncryptionDuration
| mlkemEncapsulationDuration
| encryptionDurationRatio
| encryptedKeySizeRatio
| publicKeySizeRatio
| rsaEncryptionDurationAvg
| mlkemEncapsulationDurationAvg.

Definition Gauge_eqb (g h : Gauge) : bool :=
  match g, h with
  | rsaEncryptedKeySize, rsaEncryptedKeySize
  | mlkemEncryptedKeySize, mlkemEncryptedKeySize
  | rsaPublicKeySize, rsaPublicKeySize
  | mlkemPublicKeySize, mlkemPublicKeySize
  | rsaEncryptionDuration, rsaEncryptionDuration
  | mlkemEncapsulationDuration, mlkemEncapsulationDuration
  | encryptionDurationRatio, encryptionDurationRatio
  | encryptedKeySizeRatio, encryptedKeySizeRatio
  | publicKeySizeRatio, publicKeySizeRatio
  | rsaEncryptionDurationAvg, rsaEncryptionDurationAvg
  | mlkemEncapsulationDurationAvg, mlkemEncapsulationDurationAvg => true
  | _, _ => false
  end.

(** The process state: the registered Prometheus metrics, the package-level
    accumulators of the running averages, and [main]'s tick number. *)
Record State : Type := {
  gauges : Gauge -> float64;
  encryptionCounter : Z;
  rsaTotalDuration : float64;
  mlkemTotalDuration : float64;
  operationCount : Z;
  counter : Z
}.

Definition init : State := {|
  gauges := fun _ => zero;
  encryptionCounter := 0;
  rsaTotalDuration := zero;
  mlkemTotalDuration := zero;
  operationCount := 0;
  counter := 0
|}.

(** The steps of a tick that can fail, in the order they run. *)
Inductive Step : Type :=
| FetchRSAKey
| FetchMLKEMKey
| GenerateAESKey
| EncryptAES
| WrapRSA
| WrapMLKEM.

(** A tick either runs to its end or is left by [continue] at a step. *)
Inductive Outcome (A : Type) : Type :=
| Done (a : A)
| Aborted (s : Step) (e : Error).
Arguments Done {A} a.
Arguments Aborted {A} s e.

(** The loop body as a state transformer that may leave early; what was
    written to the state before the [continue] stays written. *)
Definition M (A : Type) : Type := State -> State * Outcome A.

Definition ret {A} (a : A) : M A := fun st => (st, Done a).

Definition bind {A B} (m : M A) (k : A -> M B) : M B :=
  fun st =>
    match m st with
    | (st', Done a) => k a st'
    | (st', Aborted s e) => (st', Aborted s e)
    end.

(** [if err != nil { log.Printf(...); continue }] *)
Definition try {A} (s : Step) (r : Result A) : M A :=
  fun st =>
    match r with
    | Ok a => (st, Done a)
    | Err e => (st, Aborted s e)
    end.

Definition get : M State := fun st => (st, Done st).

Definition modify (f : State -> State) : M unit := fun st => (f st, Done tt).

Declare Scope tick_scope.
Delimit Scope tick_scope with tick.
Notation "x <- m ;; k" := (bind m (fun x => k))
  (at level 61, m at next level, right associativity) : tick_scope.
Notation "' p <- m ;; k" := (bind m (fun x => let p := x in k))
  (at level 61, p pattern, m at next level, right associativity) : tick_scope.
Notation "m ;; k" := (bind m (fun _ => k))
  (at level 61, right associativity) : tick_scope.

(** The state after [g.Set(v)]. *)
Definition set_gauge (g : Gauge) (v : float64) (st : State) : State := {|
  gauges := fun h => if Gauge_eqb h g then v else gauges st h;
  encryptionCounter := encryptionCounter st;
  rsaTotalDuration := rsaTotalDuration st;
  mlkemTotalDuration := mlkemTotalDuration st;
  operationCount := operationCount st;
  counter := counter st |}.

(** The state after [encryptionCounter.Inc()]; the counter is an unsigned
    64-bit integer. *)
Definition inc_encryptionCounter (st : State) : State := {|
  gauges := gauges st;
  encryptionCounter := (encryptionCounter st + 1) mod 2 ^ 64;
  rsaTotalDuration := rsaTotalDuration st;
  mlkemTotalDuration := mlkemTotalDuration st;
  operationCount := operationCount st;
  counter := counter st |}.

(** The state after [counter++]. *)
Definition next_counter (st : State) : State := {|
  gauges := gauges st;
  encryptionCounter := encryptionCounter st;
  rsaTotalDuration := rsaTotalDuration st;
  mlkemTotalDuration := mlkemTotalDuration st;
  operationCount := operationCount st;
  counter := wrap64 (counter st + 1) |}.

(** The state after
    [operationCount++; rsaTotalDuration += r; mlkemTotalDuration += m]. *)
Definition add_samples (r m : float64) (st : State) : State := {|
  gauges := gauges st;
  encryptionCounter := encryptionCounter st;
  rsaTotalDuration := add (rsaTotalDuration st) r;
  mlkemTotalDuration := add (mlkemTotalDuration st) m;
  operationCount := wrap64 (operationCount st + 1);
  counter := counter st |}.

Definition Set_ (g : Gauge) (v : float64) : M unit := modify (set_gauge g v).
Definition Inc_encryptionCounter : M unit := modify inc_encryptionCounter.
Definition incr_counter : M unit := modify next_counter.
Definition accumulate (r m : float64) : M unit := modify (add_samples r m).

Definition when (c : bool) (m : M unit) : M unit := if c then m else ret tt.


Section WithPrimitives.
Context `{Primitives}.

(** [fetchPublicKey]: the RSA key and its DER bytes. *)
Definition fetchPublicKey (http_Get : string -> HTTPResult) (url : string)
  : Result (rsa_PublicKey * list byte) :=
  match http_Get url with
  | GetFailed => Err HTTPGetError
  | Response StatusCode body =>
      if negb (StatusCode =? StatusOK) then Err (HTTPStatusError StatusCode)
      else
        match body with
        | BadJSON => Err JSONDecodeError
        | JSON pubKeyResp =>
            match Base64.DecodeString (public_key pubKeyResp) with
            | Err _ => Err Base64DecodeError
            | Ok pubKeyBytes =>
                match ParsePKIXPublicKey pubKeyBytes with
                | Err _ => Err KeyParseError
                | Ok (PKIX_RSA publicKey) => Ok (publicKey, pubKeyBytes)
                | Ok PKIX_other => Err KeyTypeError
                end
            end
        end
  end.

(** [fetchMLKEMPublicKey]: the ML-KEM key and its packed bytes. *)
Definition fetchMLKEMPublicKey (http_Get : string -> HTTPResult) (url : string)
  : Result (kyber768_PublicKey * list byte) :=
  match http_Get url with
  | GetFailed => Err HTTPGetError
  | Response StatusCode body =>
      if negb (StatusCode =? StatusOK) then Err (HTTPStatusError StatusCode)
      else
        match body with
        | BadJSON => Err JSONDecodeError
        | JSON pubKeyResp =>
            match Base64.DecodeString (public_key pubKeyResp) with
            | Err _ => Err Base64DecodeError
            | Ok pubKeyBytes =>
                match UnmarshalBinaryPublicKey pubKeyBytes with
                | Err _ => Err KeyParseError
                | Ok (KEM_kyber768 mlkemPublicKey) => Ok (mlkemPublicKey, pubKeyBytes)
                | Ok KEM_other => Err KeyTypeError
                end
            end
        end
  end.

(** The padding [encryptAES] appends: [padding] bytes of value [padding]. *)
Definition padding_of (plaintext : list byte) : Z :=
  AES.BlockSize - len plaintext mod AES.BlockSize.

Definition padtext_of (plaintext : list byte) : list byte :=
  let padding := padding_of plaintext in
  repeat (byte_of_Z padding) (Z.to_nat padding).

(** [encryptAES]: AES-CBC of the padded plaintext under a fresh IV;
    returns the ciphertext and the IV. *)
Definition encryptAES (rnd : Rand) (plaintext key : list byte)
  : Result (list byte * list byte) * Rand :=
  match AES.NewCipher key with
  | Err e => (Err e, rnd)
  | Ok block =>
      let plaintext := plaintext ++ padtext_of plaintext in
      match ReadFull rnd AES.BlockSize with
      | (Err e, rnd') => (Err e, rnd')
      | (Ok iv, rnd') =>
          let ciphertext := repeat x00 (List.length plaintext) in
          let ciphertext := AES.CryptBlocks block iv ciphertext plaintext in
          (Ok (ciphertext, iv), rnd')
      end
  end.

(** [encryptRSA]: RSA-OAEP with SHA-256 of [data]. *)
Definition encryptRSA (rnd : Rand) (publicKey : rsa_PublicKey) (data : list byte)
  : Result (list byte) * Rand :=
  match EncryptOAEP rnd publicKey data with
  | (Err e, rnd') => (Err e, rnd')
  | (Ok ciphertext, rnd') => (Ok ciphertext, rnd')
  end.

(** [encryptMLKEM]: the encapsulation under [publicKey]; [data] is a
    parameter of the function and is not read. *)
Definition encryptMLKEM (rnd : Rand) (publicKey : kyber768_PublicKey) (data : list byte)
  : Result (list byte * list byte) * Rand :=
  match Encapsulate rnd publicKey with
  | (Err e, rnd') => (Err e, rnd')
  | (Ok (ciphertext, sharedSecret), rnd') => (Ok (ciphertext, sharedSecret), rnd')
  end.

Definition messages : list string :=
  ["量子コンピュータに対抗するポスト量子暗号"%string].

Definition rsa_url : string := "http://rsa-server:8080/public-key".
Definition mlkem_url : string := "http://ml-kem-server:8081/public-key".

(** What the world hands to one tick: the answers of the network, the
    bytes of [rand.Reader], and the two durations the clock measures. *)
Record TickInput : Type := {
  http_Get : string -> HTTPResult;
  rand_Reader : Rand;
  rsaEncryptDuration : Duration;
  mlkemEncapsulateDuration : Duration
}.

(** The locals of a completed tick: the message, both keys, the AES key
    and what the three encryptions returned. *)
Record Summary : Type := {
  message : string;
  rsaPubKeyBytes : list byte;
  mlkemPubKeyBytes : list byte;
  aesKey : list byte;
  encryptedMessage : list byte;
  iv : list byte;
  rsaEncryptedAESKey : list byte;
  mlkemCiphertext : list byte
}.

Local Open Scope tick_scope.

(** One iteration of [for range ticker.C] in [main]. *)
Definition tick (inp : TickInput) : M Summary :=
  incr_counter ;;
  st <- get ;;
  let message :=
    nth (Z.to_nat (Z.rem (counter st) (len messages))) messages EmptyString in
  Inc_encryptionCounter ;;
  (* Step 1 *)
  ' (rsaPublicKey, rsaPubKeyBytes) <-
      try FetchRSAKey (fetchPublicKey (http_Get inp) rsa_url) ;;
  Set_ rsaPublicKeySize (of_int (len rsaPubKeyBytes)) ;;
  (* Step 1.5 *)
  ' (mlkemPublicKey, mlkemPubKeyBytes) <-
      try FetchMLKEMKey (fetchMLKEMPublicKey (http_Get inp) mlkem_url) ;;
  Set_ mlkemPublicKeySize (of_int (len mlkemPubKeyBytes)) ;;
  (* Step 2 *)
  let (r2, rnd2) := ReadFull (rand_Reader inp) 32 in
  aesKey <- try GenerateAESKey r2 ;;
  (* Step 3 *)
  let (r3, rnd3) := encryptAES rnd2 (list_byte_of_string message) aesKey in
  ' (encryptedMessage, iv) <- try EncryptAES r3 ;;
  (* Step 4 *)
  let (r4, rnd4) := encryptRSA rnd3 rsaPublicKey aesKey in
  let rsaEncryptDuration := rsaEncryptDuration inp in
  rsaEncryptedAESKey <- try WrapRSA r4 ;;
  Set_ rsaEncryptedKeySize (of_int (len rsaEncryptedAESKey)) ;;
  Set_ rsaEncryptionDuration (Seconds rsaEncryptDuration) ;;
  (* Step 5 *)
  let (r5, rnd5) := encryptMLKEM rnd4 mlkemPublicKey aesKey in
  let mlkemEncapsulateDuration := mlkemEncapsulateDuration inp in
  ' (mlkemCiphertext, _) <- try WrapMLKEM r5 ;;
  Set_ mlkemEncryptedKeySize (of_int (len mlkemCiphertext)) ;;
  Set_ mlkemEncapsulationDuration (Seconds mlkemEncapsulateDuration) ;;
  (* running averages *)
  accumulate (Seconds rsaEncryptDuration) (Seconds mlkemEncapsulateDuration) ;;
  st <- get ;;
  let rsaAvg := div (rsaTotalDuration st) (of_int (operationCount st)) in
  let mlkemAvg := div (mlkemTotalDuration st) (of_int (operationCount st)) in
  Set_ rsaEncryptionDurationAvg rsaAvg ;;
  Set_ mlkemEncapsulationDurationAvg mlkemAvg ;;
  (* comparison ratios *)
  when (gtb (Seconds rsaEncryptDuration) zero)
    (let durationRatio :=
       div (Seconds mlkemEncapsulateDuration) (Seconds rsaEncryptDuration) in
     Set_ encryptionDurationRatio durationRatio) ;;
  when (len rsaEncryptedAESKey >? 0)
    (let keySizeRatio :=
       div (of_int (len mlkemCiphertext)) (of_int (len rsaEncryptedAESKey)) in
     Set_ encryptedKeySizeRatio keySizeRatio) ;;
  when (len rsaPubKeyBytes >? 0)
    (let pubKeySizeRatio :=
       div (of_int (len mlkemPubKeyBytes)) (of_int (len rsaPubKeyBytes)) in
     Set_ publicKeySizeRatio pubKeySizeRatio) ;;
  ret {| message := message;
         rsaPubKeyBytes := rsaPubKeyBytes;
         mlkemPubKeyBytes := mlkemPubKeyBytes;
         aesKey := aesKey;
         encryptedMessage := encryptedMessage;
         iv := iv;
         rsaEncryptedAESKey := rsaEncryptedAESKey;
         mlkemCiphertext := mlkemCiphertext |}.

(** The state a tick leaves, and whether it completed. *)
Definition tick_state (inp : TickInput) (st : State) : State := fst (tick inp st).
Definition tick_outcome (inp : TickInput) (st : State) : Outcome Summary :=
  snd (tick inp st).

Definition completed {A} (o : Outcome A) : bool :=
  match o with Done _ => true | Aborted _ _ => false end.

(** The gauges the loop body has set when it reaches a step. *)
Definition written_before (s : Step) : list Gauge :=
  match s with
  | FetchRSAKey => []
  | FetchMLKEMKey => [rsaPublicKeySize]
  | GenerateAESKey | EncryptAES | WrapRSA =>
      [rsaPublicKeySize; mlkemPublicKeySize]
  | WrapMLKEM =>
      [rsaPublicKeySize; mlkemPublicKeySize;
       rsaEncryptedKeySize; rsaEncryptionDuration]
  end.

(** The calls of a tick in their order, the metrics left out: the first
    step that fails with its error, or the locals when none does. *)
Definition calls (inp : TickInput) (message : string) : Outcome Summary :=
  match fetchPublicKey (http_Get inp) rsa_url with
  | Err e => Aborted FetchRSAKey e
  | Ok (rsaPublicKey, rsaPubKeyBytes) =>
  match fetchMLKEMPublicKey (http_Get inp) mlkem_url with
  | Err e => Aborted FetchMLKEMKey e
  | Ok (mlkemPublicKey, mlkemPubKeyBytes) =>
  let (r2, rnd2) := ReadFull (rand_Reader inp) 32 in
  match r2 with
  | Err e => Aborted GenerateAESKey e
  | Ok aesKey =>
  let (r3, rnd3) := encryptAES rnd2 (list_byte_of_string message) aesKey in
  match r3 with
  | Err e => Aborted EncryptAES e
  | Ok (encryptedMessage, iv) =>
  let (r4, rnd4) := encryptRSA rnd3 rsaPublicKey aesKey in
  match r4 with
  | Err e => Aborted WrapRSA e
  | Ok rsaEncryptedAESKey =>
  let (r5, rnd5) := encryptMLKEM rnd4 mlkemPublicKey aesKey in
  match r5 with
  | Err e => Aborted WrapMLKEM e
  | Ok (mlkemCiphertext, _) =>
      Done {| message := message;
              rsaPubKeyBytes := rsaPubKeyBytes;
              mlkemPubKeyBytes := mlkemPubKeyBytes;
              aesKey := aesKey;
              encryptedMessage := encryptedMessage;
              iv := iv;
              rsaEncryptedAESKey := rsaEncryptedAESKey;
              mlkemCiphertext := mlkemCiphertext |}
  end end end end end end.

(** The message of the tick that starts in state [st]. *)
Definition next_message (st : State) : string :=
  nth (Z.to_nat (Z.rem (wrap64 (counter st + 1)) (len messages))) messages EmptyString.

(** The payload fetched at step [s] is not base64: the server answered
    200 with a JSON object whose [public_key] [DecodeString] rejects (and
    for the second fetch, the first one succeeded). *)
Definition malformed_payload (inp : TickInput) (s : Step) : Prop :=
  match s with
  | FetchRSAKey =>
      exists p, http_Get inp rsa_url = Response StatusOK (JSON p)
                /\ is_ok (Base64.DecodeString (public_key p)) = false
  | FetchMLKEMKey =>
      is_ok (fetchPublicKey (http_Get inp) rsa_url) = true
      /\ exists p, http_Get inp mlkem_url = Response StatusOK (JSON p)
                   /\ is_ok (Base64.DecodeString (public_key p)) = false
  | _ => False
  end.

(** The result of the fetch of step [s], the key left out. *)
Definition fetch_result (inp : TickInput) (s : Step) : Result (list byte) :=
  match s with
  | FetchRSAKey => rbind (fetchPublicKey (http_Get inp) rsa_url) (fun kb => Ok (snd kb))
  | _ => rbind (fetchMLKEMPublicKey (http_Get inp) mlkem_url) (fun kb => Ok (snd kb))
  end.

(** The three comparison ratios, the gauge of each, and what it is to
    have a zero classical-side denominator in a tick: the RSA wrap duration
    in seconds, the length of the RSA-wrapped key, the length of the RSA
    public key.  The two lengths exist in a completed tick only. *)
Inductive Ratio : Type :=
| DurationRatio
| EncryptedKeySizeRatio
| PublicKeySizeRatio.

Definition ratio_gauge (r : Ratio) : Gauge :=
  match r with
  | DurationRatio => encryptionDurationRatio
  | EncryptedKeySizeRatio => encryptedKeySizeRatio
  | PublicKeySizeRatio => publicKeySizeRatio
  end.

Definition zero_denominator (r : Ratio) (inp : TickInput) (o : Outcome Summary) : Prop :=
  match r, o with
  | DurationRatio, _ => is_zero (Seconds (rsaEncryptDuration inp)) = true
  | EncryptedKeySizeRatio, Done s => len (rsaEncryptedAESKey s) = 0
  | PublicKeySizeRatio, Done s => len (rsaPubKeyBytes s) = 0
  | _, Aborted _ _ => False
  end.

(** Both average gauges show cumulative duration over operation count. *)
Definition averages_current (st : State) : Prop :=
  gauges st rsaEncryptionDurationAvg
    = div (rsaTotalDuration st) (of_int (operationCount st)) /\
  gauges st mlkemEncapsulationDurationAvg
    = div (mlkemTotalDuration st) (of_int (operationCount st)).

(** The inputs of the ticks of a run that completed, in their order. *)
Fixpoint completed_ticks (inps : list TickInput) (st : State) : list TickInput :=
  match inps with
  | [] => []
  | inp :: rest =>
      (if completed (tick_outcome inp st) then [inp] else [])
        ++ completed_ticks rest (tick_state inp st)
  end.

(** A cumulative duration: the samples added one after the other. *)
Definition total (start : float64) (samples : list float64) : float64 :=
  fold_left add samples start.

(** The ticker loop over the ticks that have fired so far. *)
Fixpoint run (inps : list TickInput) (st : State) : State :=
  match inps with
  | [] => st
  | inp :: rest => run rest (tick_state inp st)
  end.

End WithPrimitives.

End Client.

(** ** The receiving side of [encryptAES]

    The programs only encrypt.  The inverse the round-trip property speaks
    of is written here from its words: decipher in CBC mode with the same
    key and IV, then strip the padding, whose length is the value of its
    last byte. *)
Module Receiver.

Definition all_eqb (p : byte) (l : list byte) : bool :=
  forallb (fun b => Byte.eqb b p) l.

(** Strip [p] trailing bytes of value [p], where [p] is the last byte;
    [None] when the text does not end in such a padding. *)
Definition strip_padding (padded : list byte) : option (list byte) :=
  match rev padded with
  | [] => None
  | p :: _ =>
      let n := byte_to_Z p in
      let k := len padded - n in
      if (1 <=? n) && (n <=? AES.BlockSize) && (0 <=? k)
         && all_eqb p (skipn (Z.to_nat k) padded)
      then Some (firstn (Z.to_nat k) padded)
      else None
  end.

Definition decryptAES `{Primitives} (ciphertext key iv : list byte)
  : option (list byte) :=
  match AES.NewCipher key with
  | Err _ => None
  | Ok block => strip_padding (AES.DecryptBlocks block iv ciphertext)
  end.

End Receiver.

(** ** ASN.1 DER of an RSA public key

    The [SubjectPublicKeyInfo] that [x509.MarshalPKIXPublicKey] writes for
    an [rsa.PublicKey] with a positive modulus and exponent. *)
Module DER.

(** The big-endian bytes of [z >= 0], [n] of them. *)
Fixpoint be_bytes (n : nat) (z : Z) : list byte :=
  match n with
  | O => []
  | S n' => be_bytes n' (Z.shiftr z 8) ++ [byte_of_Z z]
  end.

Fixpoint be_value (acc : Z) (l : list byte) : Z :=
  match l with
  | [] => acc
  | b :: t => be_value (Z.lor (Z.shiftl acc 8) (byte_to_Z b)) t
  end.

(** The number of bytes of the minimal two's complement form of [z >= 0]:
    one more bit than [z] has, for the sign. *)
Definition int_size (z : Z) : nat :=
  if z =? 0 then 1%nat else Z.to_nat ((Z.log2 z + 1) / 8 + 1).

Definition length_bytes (n : Z) : list byte :=
  if n <? 128 then [byte_of_Z n]
  else if n <? 256 then [x81; byte_of_Z n]
  else if n <? 65536 then [x82; byte_of_Z (Z.shiftr n 8); byte_of_Z n]
  else [x83; byte_of_Z (Z.shiftr n 16); byte_of_Z (Z.shiftr n 8); byte_of_Z n].

Definition tlv (tag : byte) (content : list byte) : list byte :=
  tag :: length_bytes (len content) ++ content.

Definition integer (z : Z) : list byte := tlv x02 (be_bytes (int_size z) z).
Definition sequence (content : list byte) : list byte := tlv x30 content.
Definition bit_string (content : list byte) : list byte := tlv x03 (x00 :: content).

(** [rsaEncryption], 1.2.840.113549.1.1.1, with its NULL parameters. *)
Definition rsaAlgorithmIdentifier : list byte :=
  sequence ([x06; x09; x2a; x86; x48; x86; xf7; x0d; x01; x01; x01] ++ [x05; x00]).

Definition MarshalPKIXPublicKey (k : rsa_PublicKey) : list byte :=
  sequence (rsaAlgorithmIdentifier
            ++ bit_string (sequence (integer (N k) ++ integer (E k)))).

End DER.

(** ** The two key servers *)

(** What a handler writes to its [http.ResponseWriter]. *)
Inductive Reply (A : Type) : Type :=
| HTTPError (code : Z)
| JSONReply (response : A).
Arguments HTTPError {A} code.
Arguments JSONReply {A} response.

Definition MethodGet : string := "GET".
Definition StatusMethodNotAllowed : Z := 405.
Definition StatusInternalServerError : Z := 500.

(** The key-generation metrics both servers keep: the gauge
    [keyGenerationTime], the observations of the histogram
    [keyGenerationDuration], and the counter [publicKeyRequests]. *)
Record ServerMetrics : Type := {
  publicKeyRequests : Z;
  keyGenerationTime : float64;
  keyGenerationDuration : list float64
}.

Definition observe_generation (d : Duration) (m : ServerMetrics) : ServerMetrics :=
  {| publicKeyRequests := publicKeyRequests m;
     keyGenerationTime := Seconds d;
     keyGenerationDuration := Seconds d :: keyGenerationDuration m |}.

Definition count_request (m : ServerMetrics) : ServerMetrics :=
  {| publicKeyRequests := (publicKeyRequests m + 1) mod 2 ^ 64;
     keyGenerationTime := keyGenerationTime m;
     keyGenerationDuration := keyGenerationDuration m |}.

(** [rsa-benchmark/main.go] *)
Module RSAServer.

Record PublicKeyResponse : Type := {
  PublicKey : string;
  KeySize : Z
}.

(** [getPublicKeyHandler]: a fresh RSA-2048 key pair for every request.
    (The only [publicKeyRequests.Inc()] of this program is text inside the
    HTML of [indexHandler]; the counter is never incremented.) *)
Definition getPublicKeyHandler `{Primitives}
    (Method : string) (rnd : Rand) (generationDuration : Duration)
    (m : ServerMetrics)
  : ServerMetrics * Reply PublicKeyResponse :=
  if negb (String.eqb Method MethodGet)
  then (m, HTTPError StatusMethodNotAllowed)
  else
    match rsa_GenerateKey rnd 2048 with
    | (Err _, _) => (m, HTTPError StatusInternalServerError)
    | (Ok publicKey, _) =>
        let m := observe_generation generationDuration m in
        match MarshalPKIXPublicKey publicKey with
        | Err _ => (m, HTTPError StatusInternalServerError)
        | Ok pubKeyBytes =>
            let pubKeyBase64 := Base64.EncodeToString pubKeyBytes in
            (m, JSONReply {| PublicKey := pubKeyBase64; KeySize := 2048 |})
        end
    end.

(** The JSON object of a response, as a client reads it. *)
Definition to_JSON (r : PublicKeyResponse) : PublicKeyJSON :=
  {| public_key := PublicKey r; algorithm := EmptyString; key_size := KeySize r |}.

End RSAServer.

(** The ML-KEM server *)
Module MLKEMServer.

Record PublicKeyResponse : Type := {
  PublicKey : string;
  Algorithm : string;
  KeySize : Z
}.

(** [publicKey.MarshalBinary()] *)
Definition MarshalBinary (k : kyber768_PublicKey) : Result (list byte) :=
  Ok (packed k).

(** [getPublicKeyHandler]: a fresh Kyber-768 key pair for every request. *)
Definition getPublicKeyHandler `{Primitives}
    (Method : string) (rnd : Rand) (generationDuration : Duration)
    (m : ServerMetrics)
  : ServerMetrics * Reply PublicKeyResponse :=
  if negb (String.eqb Method MethodGet)
  then (m, HTTPError StatusMethodNotAllowed)
  else
    let m := count_request m in
    match kyber768_GenerateKeyPair rnd with
    | (Err _, _) => (m, HTTPError StatusInternalServerError)
    | (Ok publicKey, _) =>
        let m := observe_generation generationDuration m in
        match MarshalBinary publicKey with
        | Err _ => (m, HTTPError StatusInternalServerError)
        | Ok pubKeyBytes =>
            let pubKeyBase64 := Base64.EncodeToString pubKeyBytes in
            (m, JSONReply {| PublicKey := pubKeyBase64;
                             Algorithm := "ML-KEM-768 (Kyber-768)";
                             KeySize := len pubKeyBytes |})
        end
    end.

Definition to_JSON (r : PublicKeyResponse) : PublicKeyJSON :=
  {| public_key := PublicKey r; algorithm := Algorithm r; key_size := KeySize r |}.

End MLKEMServer.

(** The size in bytes of the public key a response carries: the length of
    the decoded [public_key] payload. *)
Definition payload_size (public_key : string) : option Z :=
  match Base64.DecodeString public_key with
  | Ok bs => Some (len bs)
  | Err _ => None
  end.

(** ** Stand-ins for the primitives

    Concrete functions with the shapes of the library primitives, for
    running the programs on concrete inputs: an invertible 16-byte block
    map, a parser that accepts exactly the DER of 2048-bit RSA keys with
    exponent 65537, the length check of Kyber-768 public keys, and wrap
    functions with the sizes of the real ones (RSA-OAEP with SHA-256 under
    a 2048-bit key takes at most 190 bytes and returns 256; a Kyber-768
    ciphertext has 1088 bytes, a public key 1184).  The stand-in for
    [Encapsulate] returns an error when the stream runs dry, where the
    library panics; nothing below runs it on such a stream.  They are not
    ciphers. *)
Module Demo.

Definition key_byte (key : list byte) : byte := hd x00 key.

Definition block_Encrypt (key blk : list byte) : list byte :=
  map (AES.xor_byte (key_byte key)) (rev blk).

Definition block_Decrypt (key blk : list byte) : list byte :=
  rev (map (AES.xor_byte (key_byte key)) blk).

Fixpoint bytes_eqb (x y : list byte) : bool :=
  match x, y with
  | [], [] => true
  | a :: x', b :: y' => Byte.eqb a b && bytes_eqb x' y'
  | _, _ => false
  end.

Definition parse_rsa2048 (der : list byte) : Result PKIXKey :=
  let k := {| N := DER.be_value 0 (firstn 256 (skipn 33 der)); E := 65537 |} in
  if bytes_eqb der (DER.MarshalPKIXPublicKey k)
  then Ok (PKIX_RSA k)
  else Err KeyParseError.

Definition unmarshal_kyber768 (buf : list byte) : Result kem_PublicKey :=
  if len buf =? 1184
  then Ok (KEM_kyber768 {| packed := buf |})
  else Err KeyParseError.

Definition oaep (rnd : Rand) (pub : rsa_PublicKey) (msg : list byte)
  : Result (list byte) * Rand :=
  if 190 <? len msg then (Err RSAEncryptError, rnd)
  else
    match ReadFull rnd 32 with
    | (Err e, rnd') => (Err e, rnd')
    | (Ok seed, rnd') => (Ok (firstn 256 (seed ++ msg ++ repeat x00 256)), rnd')
    end.

Definition encapsulate (rnd : Rand) (pk : kyber768_PublicKey)
  : Result (list byte * list byte) * Rand :=
  match ReadFull rnd 32 with
  | (Err e, rnd') => (Err e, rnd')
  | (Ok seed, rnd') =>
      (Ok (firstn 1088 (seed ++ packed pk ++ repeat x00 1088), seed), rnd')
  end.

Definition generate_rsa (rnd : Rand) (bits : Z) : Result rsa_PublicKey * Rand :=
  match ReadFull rnd (bits / 8) with
  | (Err e, rnd') => (Err KeyGenError, rnd')
  | (Ok bs, rnd') =>
      (Ok {| N := Z.lor (Z.lor (DER.be_value 0 bs) (2 ^ (bits - 1))) 1;
             E := 65537 |}, rnd')
  end.

Definition generate_kyber768 (rnd : Rand) : Result kyber768_PublicKey * Rand :=
  match ReadFull rnd 1184 with
  | (Err e, rnd') => (Err KeyGenError, rnd')
  | (Ok bs, rnd') => (Ok {| packed := bs |}, rnd')
  end.

#[export] Instance primitives : Primitives := {|
  aes_Encrypt := block_Encrypt;
  aes_Decrypt := block_Decrypt;
  ParsePKIXPublicKey := parse_rsa2048;
  MarshalPKIXPublicKey := fun k => Ok (DER.MarshalPKIXPublicKey k);
  UnmarshalBinaryPublicKey := unmarshal_kyber768;
  EncryptOAEP := oaep;
  Encapsulate := encapsulate;
  rsa_GenerateKey := generate_rsa;
  kyber768_GenerateKeyPair := generate_kyber768
|}.

(** A stream of [n] bytes for [rand.Reader]. *)
Definition stream (n : nat) : Rand :=
  map (fun i => byte_of_Z (Z.of_nat i * 37 + 11)) (seq 0 n).

(** What [http.Get] returns for a handler's reply. *)
Definition serve {A} (to_JSON : A -> PublicKeyJSON) (r : Reply A) : HTTPResult :=
  match r with
  | HTTPError code => Response code BadJSON
  | JSONReply response => Response StatusOK (JSON (to_JSON response))
  end.

Definition no_metrics : ServerMetrics :=
  {| publicKeyRequests := 0; keyGenerationTime := zero; keyGenerationDuration := [] |}.

Definition rsa_reply : Reply RSAServer.PublicKeyResponse :=
  snd (RSAServer.getPublicKeyHandler MethodGet (stream 256) (80 * Millisecond) no_metrics).

Definition mlkem_reply : Reply MLKEMServer.PublicKeyResponse :=
  snd (MLKEMServer.getPublicKeyHandler MethodGet (stream 1184) 40000 no_metrics).

(** Both servers up. *)
Definition network (url : string) : HTTPResult :=
  if String.eqb url Client.rsa_url then serve RSAServer.to_JSON rsa_reply
  else if String.eqb url Client.mlkem_url then serve MLKEMServer.to_JSON mlkem_reply
  else GetFailed.

(** The RSA server up, the ML-KEM server answering 500. *)
Definition network_mlkem_down (url : string) : HTTPResult :=
  if String.eqb url Client.rsa_url then serve RSAServer.to_JSON rsa_reply
  else if String.eqb url Client.mlkem_url
       then Response StatusInternalServerError BadJSON
  else GetFailed.

(** A tick in which everything succeeds and the clock measures [r] and [m]
    nanoseconds for the two wraps. *)
Definition good_tick (r m : Duration) : Client.TickInput :=
  {| Client.http_Get := network;
     Client.rand_Reader := stream 112;
     Client.rsaEncryptDuration := r;
     Client.mlkemEncapsulateDuration := m |}.

(** Three ticks in a row that measure 100 ms for the RSA wrap and 2 ms for
    the ML-KEM wrap. *)
Definition three_ticks : list Client.TickInput :=
  repeat (good_tick (100 * Millisecond) (2 * Millisecond)) 3.

Definition mlkem_down_tick : Client.TickInput :=
  {| Client.http_Get := network_mlkem_down;
     Client.rand_Reader := stream 112;
     Client.rsaEncryptDuration := 0;
     Client.mlkemEncapsulateDuration := 0 |}.

(** The RSA server's answer damaged on its way: a [public_key] that is
    not base64. *)
Definition network_bad_base64 (url : string) : HTTPResult :=
  if String.eqb url Client.rsa_url
  then Response StatusOK
         (JSON {| public_key := "MIIBIjANBgkqhkiG9w0BAQEFAAOCAQ8A*%%";
                  algorithm := EmptyString;
                  key_size := 2048 |})
  else network url.

Definition bad_base64_tick : Client.TickInput :=
  {| Client.http_Get := network_bad_base64;
     Client.rand_Reader := stream 112;
     Client.rsaEncryptDuration := 0;
     Client.mlkemEncapsulateDuration := 0 |}.

End Demo.

(** ** The rest of the servers: the index page and the middleware *)

(** A request as the handlers read it, with what the world supplies while
    it is served: the bytes of [rand.Reader], the duration the handler
    measures around the key generation and the duration the middleware
    measures around the handler. *)
Record Request : Type := {
  req_Method : string;
  req_rand : Rand;
  req_generation : Duration;
  req_duration : Duration
}.

(** The two handlers [main] registers behind the middleware, by the
    endpoint label it gives them. *)
Inductive Endpoint : Type :=
| PublicKeyEndpoint
| IndexEndpoint.

Definition endpoint_label (e : Endpoint) : string :=
  match e with
  | PublicKeyEndpoint => "public-key"
  | IndexEndpoint => "index"
  end.

(** What a request is answered with: the reply of the key handler or the
    HTML of the index page. *)
Inductive Written (A : Type) : Type :=
| KeyReply (reply : Reply A)
| HTMLPage (html : string).
Arguments KeyReply {A} reply.
Arguments HTMLPage {A} html.

(** The double quote, which the pages contain. *)
Definition q : string := String "034" EmptyString.

(** [rsa-benchmark/main.go], the rest *)
Module RSAMain.

(** The metrics of the middleware: the counter vector [httpRequestsTotal]
    by endpoint and method, and the observations of the histogram vector
    [httpRequestDuration] by endpoint, the latest first. *)
Record HTTPMetrics : Type := {
  httpRequestsTotal : string -> string -> Z;
  httpRequestDuration : string -> list float64
}.

Definition no_requests : HTTPMetrics :=
  {| httpRequestsTotal := fun _ _ => 0; httpRequestDuration := fun _ => [] |}.

(** [httpRequestsTotal.WithLabelValues(endpoint, method).Inc()] *)
Definition inc_requests (endpoint method : string) (h : HTTPMetrics) : HTTPMetrics :=
  {| httpRequestsTotal := fun e m =>
       if String.eqb e endpoint && String.eqb m method
       then (httpRequestsTotal h e m + 1) mod 2 ^ 64
       else httpRequestsTotal h e m;
     httpRequestDuration := httpRequestDuration h |}.

(** [httpRequestDuration.WithLabelValues(endpoint).Observe(v)] *)
Definition observe_duration (endpoint : string) (v : float64) (h : HTTPMetrics)
  : HTTPMetrics :=
  {| httpRequestsTotal := httpRequestsTotal h;
     httpRequestDuration := fun e =>
       if String.eqb e endpoint then v :: httpRequestDuration h e
       else httpRequestDuration h e |}.

(** [metricsMiddleware]: count the request, run the handler, observe the
    duration. *)
Definition metricsMiddleware {A} (endpoint : string)
    (next : Request -> ServerMetrics -> ServerMetrics * A)
    (r : Request) (st : HTTPMetrics * ServerMetrics)
  : (HTTPMetrics * ServerMetrics) * A :=
  let (h, m) := st in
  let h := inc_requests endpoint (req_Method r) h in
  let (m, a) := next r m in
  let duration := req_duration r in
  let h := observe_duration endpoint (Seconds duration) h in
  ((h, m), a).

Definition index_html : string :=
  ("
	<!DOCTYPE html>
	<html>
	<head>
		<meta charset="
  ++ q ++ "UTF-8"
  ++ q ++ ">
		<title>RSA公開鍵サーバー</title>
	</head>
	<body>
	publicKeyRequests.Inc()

		<h1>RSA公開鍵サーバー</h1>
		<p>このサーバーはRSA公開鍵を提供します。</p>
		<h2>使用方法:</h2>
		<ul>
			<li><a href="
  ++ q ++ "/public-key"
  ++ q ++ ">GET /public-key</a> - RSA公開鍵を取得</li>
		</ul>
	</body>
	</html>
	")%string.

(** [indexHandler]: the page, whatever the method; the
    [publicKeyRequests.Inc()] in it is text of the page. *)
Definition indexHandler (r : Request) (m : ServerMetrics)
  : ServerMetrics * Written RSAServer.PublicKeyResponse :=
  (m, HTMLPage index_html).

(** [getPublicKeyHandler] as a handler of requests. *)
Definition publicKeyHandler `{Primitives} (r : Request) (m : ServerMetrics)
  : ServerMetrics * Written RSAServer.PublicKeyResponse :=
  let (m', reply) :=
    RSAServer.getPublicKeyHandler (req_Method r) (req_rand r) (req_generation r) m in
  (m', KeyReply reply).

(** A request to one of the two endpoints, as [main] wires them. *)
Definition serve `{Primitives} (e : Endpoint) (r : Request)
    (st : HTTPMetrics * ServerMetrics)
  : (HTTPMetrics * ServerMetrics) * Written RSAServer.PublicKeyResponse :=
  match e with
  | PublicKeyEndpoint => metricsMiddleware "public-key" publicKeyHandler r st
  | IndexEndpoint => metricsMiddleware "index" indexHandler r st
  end.

(** The requests of a server's life, one after the other: the state in the
    end and what each was answered with. *)
Fixpoint serve_all `{Primitives} (reqs : list (Endpoint * Request))
    (st : HTTPMetrics * ServerMetrics)
  : (HTTPMetrics * ServerMetrics) * list (Written RSAServer.PublicKeyResponse) :=
  match reqs with
  | [] => (st, [])
  | (e, r) :: rest =>
      let (st', w) := serve e r st in
      let (st'', ws) := serve_all rest st' in
      (st'', w :: ws)
  end.

End RSAMain.

(** The ML-KEM server, the rest *)
Module MLKEMMain.

(** The metrics of the middleware: the observations of the histogram
    vector [httpRequestDuration] by endpoint, the latest first.  This
    program has no request counter. *)
Definition HTTPMetrics : Type := string -> list float64.

Definition no_requests : HTTPMetrics := fun _ => [].

(** [httpRequestDuration.WithLabelValues(endpoint).Observe(v)] *)
Definition observe_duration (endpoint : string) (v : float64) (h : HTTPMetrics)
  : HTTPMetrics :=
  fun e => if String.eqb e endpoint then v :: h e else h e.

(** [metricsMiddleware]: run the handler, observe the duration. *)
Definition metricsMiddleware {A} (endpoint : string)
    (next : Request -> ServerMetrics -> ServerMetrics * A)
    (r : Request) (st : HTTPMetrics * ServerMetrics)
  : (HTTPMetrics * ServerMetrics) * A :=
  let (h, m) := st in
  let (m, a) := next r m in
  let duration := req_duration r in
  let h := observe_duration endpoint (Seconds duration) h in
  ((h, m), a).

Definition index_html : string :=
  ("
	<!DOCTYPE html>
	<html>
	<head>
		<meta charset="
  ++ q ++ "UTF-8"
  ++ q ++ ">
		<title>ML-KEM公開鍵サーバー</title>
	</head>
	<body>
		<h1>ML-KEM (Kyber-768) 公開鍵サーバー</h1>
		<p>このサーバーはポスト量子暗号のML-KEM公開鍵を提供します。</p>
		<h2>使用方法:</h2>
		<ul>
			<li><a href="
  ++ q ++ "/public-key"
  ++ q ++ ">GET /public-key</a> - ML-KEM公開鍵を取得</li>
			<li><a href="
  ++ q ++ "/metrics"
  ++ q ++ ">GET /metrics</a> - Prometheusメトリクス</li>
		</ul>
		<h2>ML-KEMについて:</h2>
		<p>ML-KEM (Module-Lattice-Based Key-Encapsulation Mechanism) は、NISTが標準化したポスト量子暗号アルゴリズムです。</p>
		<p>量子コンピュータの攻撃にも耐性があります。</p>
	</body>
	</html>
	")%string.

(** [indexHandler]: the page, whatever the method. *)
Definition indexHandler (r : Request) (m : ServerMetrics)
  : ServerMetrics * Written MLKEMServer.PublicKeyResponse :=
  (m, HTMLPage index_html).

(** [getPublicKeyHandler] as a handler of requests. *)
Definition publicKeyHandler `{Primitives} (r : Request) (m : ServerMetrics)
  : ServerMetrics * Written MLKEMServer.PublicKeyResponse :=
  let (m', reply) :=
    MLKEMServer.getPublicKeyHandler (req_Method r) (req_rand r) (req_generation r) m in
  (m', KeyReply reply).

Definition serve `{Primitives} (e : Endpoint) (r : Request)
    (st : HTTPMetrics * ServerMetrics)
  : (HTTPMetrics * ServerMetrics) * Written MLKEMServer.PublicKeyResponse :=
  match e with
  | PublicKeyEndpoint => metricsMiddleware "public-key" publicKeyHandler r st
  | IndexEndpoint => metricsMiddleware "index" indexHandler r st
  end.

Fixpoint serve_all `{Primitives} (reqs : list (Endpoint * Request))
    (st : HTTPMetrics * ServerMetrics)
  : (HTTPMetrics * ServerMetrics) * list (Written MLKEMServer.PublicKeyResponse) :=
  match reqs with
  | [] => (st, [])
  | (e, r) :: rest =>
      let (st', w) := serve e r st in
      let (st'', ws) := serve_all rest st' in
      (st'', w :: ws)
  end.

End MLKEMMain.

(** Counting in a list of requests. *)
Definition count_where {A} (f : A -> bool) (l : list A) : Z := len (filter f l).

Definition is_get (r : Request) : bool := String.eqb (req_Method r) MethodGet.

Definition to_endpoint (e : Endpoint) (x : Endpoint * Request) : bool :=
  match e, fst x with
  | PublicKeyEndpoint, PublicKeyEndpoint | IndexEndpoint, IndexEndpoint => true
  | _, _ => false
  end.

Definition is_json {A} (w : Written A) : bool :=
  match w with KeyReply (JSONReply _) => true | _ => false end.

(** A [GET] to the key endpoint: the requests the key handlers go on with. *)
Definition key_request (x : Endpoint * Request) : bool :=
  to_endpoint PublicKeyEndpoint x && is_get (snd x).

(** The key requests for which the generation of the key pair succeeds. *)
Definition RSA_generates `{Primitives} (x : Endpoint * Request) : bool :=
  key_request x && is_ok (fst (rsa_GenerateKey (req_rand (snd x)) 2048)).

Definition MLKEM_generates `{Primitives} (x : Endpoint * Request) : bool :=
  key_request x && is_ok (fst (kyber768_GenerateKeyPair (req_rand (snd x)))).

(** The generation time of a request in seconds, as the handlers observe it. *)
Definition generation_seconds (x : Endpoint * Request) : float64 :=
  Seconds (req_generation (snd x)).

(** The middleware's duration of a request in seconds. *)
Definition duration_seconds (x : Endpoint * Request) : float64 :=
  Seconds (req_duration (snd x)).

(** ** The summary lines of the client *)
Module Report.

(** [func min(a, b int) int] *)
Definition min (a b : Z) : Z := if a <? b then a else b.

(** [s[:n]]: the first [n] bytes of a string; Go panics, here [None],
    when [n] is negative or beyond the length. *)
Definition slice_to (s : string) (n : Z) : option string :=
  if (0 <=? n) && (n <=? Z.of_nat (String.length s))
  then Some (String.substring 0 (Z.to_nat n) s)
  else None.

(** [message[:min(len(message), 30)]+"..."], the text after
    [メッセージ:] in the summary. *)
Definition preview (message : string) : option string :=
  match slice_to message (min (Z.of_nat (String.length message)) 30) with
  | Some head => Some (head ++ "...")%string
  | None => None
  end.

End Report.

(** ** More concrete inputs *)
Module Scenario.

(** Both servers up and a [rand.Reader] that runs dry after 40 bytes:
    enough for the AES key, not for the IV. *)
Definition dry_tick : Client.TickInput :=
  {| Client.http_Get := Demo.network;
     Client.rand_Reader := Demo.stream 40;
     Client.rsaEncryptDuration := 0;
     Client.mlkemEncapsulateDuration := 0 |}.

(** Three completed ticks and one that fails at the second fetch. *)
Definition four_ticks : list Client.TickInput :=
  Demo.three_ticks ++ [Demo.mlkem_down_tick].

(** A [GET] with enough randomness for either key pair, a [POST], and a
    [GET] served while [rand.Reader] gives nothing. *)
Definition get_key : Request :=
  {| req_Method := MethodGet; req_rand := Demo.stream 1184;
     req_generation := 40000; req_duration := 50000 |}.

Definition post_key : Request :=
  {| req_Method := "POST"; req_rand := Demo.stream 1184;
     req_generation := 40000; req_duration := 1000 |}.

Definition get_without_entropy : Request :=
  {| req_Method := MethodGet; req_rand := [];
     req_generation := 700; req_duration := 2000 |}.

Definition requests : list (Endpoint * Request) :=
  [ (PublicKeyEndpoint, get_key); (IndexEndpoint, post_key);
    (PublicKeyEndpoint, post_key); (PublicKeyEndpoint, get_without_entropy);
    (IndexEndpoint, get_key) ].

End Scenario.

(** * Properties *)

Lemma byte_to_Z_range (b : byte) : 0 <= byte_to_Z b < 256.
Proof.
  unfold byte_to_Z. pose proof (Byte.to_N_bounded b). lia.
Qed.

Lemma byte_of_to_Z (b : byte) : byte_of_Z (byte_to_Z b) = b.
Proof.
  unfold byte_of_Z. pose proof (byte_to_Z_range b) as Hb.
  rewrite Z.mod_small by exact Hb.
  unfold byte_to_Z. rewrite N2Z.id, Byte.of_to_N. reflexivity.
Qed.

Lemma byte_to_of_Z (z : Z) : byte_to_Z (byte_of_Z z) = z mod 256.
Proof.
  unfold byte_of_Z, byte_to_Z.
  pose proof (Z.mod_pos_bound z 256 ltac:(lia)) as Hm.
  destruct (Byte.of_N (Z.to_N (z mod 256))) as [b|] eqn:E.
  - apply Byte.to_of_N in E. rewrite E. lia.
  - exfalso.
    pose proof (Byte.to_of_N_option_map (Z.to_N (z mod 256))) as H.
    rewrite E in H. simpl in H.
    destruct (N.leb_spec (Z.to_N (z mod 256)) 255); [discriminate | lia].
Qed.

(** ** Bit arithmetic *)

Lemma lor_disjoint_add (a b k : Z) :
  0 <= k -> 0 <= b < 2 ^ k -> a mod 2 ^ k = 0 -> Z.lor a b = a + b.
Proof.
  intros Hk Hb Ha.
  assert (Hland : Z.land a b = 0).
  { apply Z.bits_inj'. intros n Hn. rewrite Z.land_spec, Z.bits_0.
    destruct (Z.lt_ge_cases n k) as [Hlt | Hge].
    - rewrite <- (Z.mod_pow2_bits_low a k n) by lia.
      rewrite Ha, Z.bits_0. reflexivity.
    - destruct (Z.eq_dec b 0) as [-> | Hnz].
      + rewrite Z.bits_0. apply andb_false_r.
      + rewrite (Z.bits_above_log2 b n); [apply andb_false_r | lia |].
        assert (Z.log2 b < k) by (apply Z.log2_lt_pow2; lia). lia. }
  pose proof (Z.add_lor_land a b) as H. rewrite Hland in H. lia.
Qed.

Lemma land_63 (v : Z) : Z.land v 63 = v mod 64.
Proof. change 63 with (Z.ones 6). rewrite Z.land_ones by lia. reflexivity. Qed.

Ltac shifts_to_arith :=
  rewrite ?Z.shiftl_mul_pow2, ?Z.shiftr_div_pow2, ?land_63 by lia;
  change (2 ^ 6) with 64 in *; change (2 ^ 8) with 256 in *;
  change (2 ^ 12) with 4096 in *; change (2 ^ 16) with 65536 in *;
  change (2 ^ 18) with 262144 in *.

Ltac euclid := Z.to_euclidean_division_equations; lia.

(** The 24-bit value of a group of three bytes. *)
Lemma group_value (x0 x1 x2 : Z) :
  0 <= x0 < 256 -> 0 <= x1 < 256 -> 0 <= x2 < 256 ->
  Z.lor (Z.lor (Z.shiftl x0 16) (Z.shiftl x1 8)) x2 = x0 * 65536 + x1 * 256 + x2.
Proof.
  intros H0 H1 H2. shifts_to_arith.
  rewrite (lor_disjoint_add (x0 * 65536) (x1 * 256) 16) by (cbn; first [lia | euclid]).
  rewrite (lor_disjoint_add _ x2 8) by (cbn; first [lia | euclid]).
  reflexivity.
Qed.

(** The 24-bit value of a quantum of four sextets. *)
Lemma quantum_value (v0 v1 v2 v3 : Z) :
  0 <= v0 < 64 -> 0 <= v1 < 64 -> 0 <= v2 < 64 -> 0 <= v3 < 64 ->
  Z.lor (Z.lor (Z.lor (Z.shiftl v0 18) (Z.shiftl v1 12)) (Z.shiftl v2 6)) v3
  = v0 * 262144 + v1 * 4096 + v2 * 64 + v3.
Proof.
  intros H0 H1 H2 H3. shifts_to_arith.
  rewrite (lor_disjoint_add (v0 * 262144) (v1 * 4096) 18) by (cbn; first [lia | euclid]).
  rewrite (lor_disjoint_add _ (v2 * 64) 12) by (cbn; first [lia | euclid]).
  rewrite (lor_disjoint_add _ v3 6) by (cbn; first [lia | euclid]).
  reflexivity.
Qed.

Lemma byte_of_Z_eq (b : byte) (z : Z) : z mod 256 = byte_to_Z b -> byte_of_Z z = b.
Proof.
  intros Hz. transitivity (byte_of_Z (byte_to_Z b)); [| apply byte_of_to_Z].
  unfold byte_of_Z. rewrite Hz.
  rewrite (Z.mod_small (byte_to_Z b)) by apply byte_to_Z_range. reflexivity.
Qed.

(** ** Base64: decoding undoes encoding *)

Lemma below_64 (P : Z -> bool) :
  forallb (fun n => P (Z.of_nat n)) (seq 0 64) = true ->
  forall v, 0 <= v < 64 -> P v = true.
Proof.
  intros Hall v Hv. rewrite forallb_forall in Hall.
  specialize (Hall (Z.to_nat v)). rewrite Z2Nat.id in Hall by lia.
  apply Hall, in_seq. lia.
Qed.

Lemma decodeMap_encode (v : Z) :
  0 <= v < 64 -> Base64.decodeMap (Base64.encode v) = v.
Proof.
  intros Hv. apply Z.eqb_eq.
  apply (below_64 (fun v => Base64.decodeMap (Base64.encode v) =? v)); [| exact Hv].
  vm_compute. reflexivity.
Qed.

Lemma encode_not_newline (v : Z) :
  0 <= v < 64 -> Base64.is_newline (Base64.encode v) = false.
Proof.
  intros Hv. apply negb_true_iff.
  apply (below_64 (fun v => negb (Base64.is_newline (Base64.encode v)))); [| exact Hv].
  vm_compute. reflexivity.
Qed.

Lemma sextet_range (v k : Z) : 0 <= Z.land (Z.shiftr v k) 63 < 64.
Proof. rewrite land_63. apply Z.mod_pos_bound. lia. Qed.

Lemma decodeMap_sextet (v k : Z) :
  Base64.decodeMap (Base64.encode (Z.land (Z.shiftr v k) 63)) = Z.land (Z.shiftr v k) 63.
Proof. apply decodeMap_encode, sextet_range. Qed.

Lemma decodeMap_land (v : Z) :
  Base64.decodeMap (Base64.encode (Z.land v 63)) = Z.land v 63.
Proof. apply decodeMap_encode. rewrite land_63. apply Z.mod_pos_bound. lia. Qed.

Lemma list_ind3 {A} (P : list A -> Prop) :
  P [] -> (forall a, P [a]) -> (forall a b, P [a; b]) ->
  (forall a b c l, P l -> P (a :: b :: c :: l)) ->
  forall l, P l.
Proof.
  intros H0 H1 H2 H3.
  assert (Hn : forall n l, (List.length l <= n)%nat -> P l).
  { induction n as [| n IH]; intros l Hl.
    - destruct l; [exact H0 | simpl in Hl; lia].
    - destruct l as [| a [| b [| c l]]]; auto.
      apply H3, IH. simpl in Hl. lia. }
  intros l. apply (Hn (List.length l)). lia.
Qed.

(** The three bytes a full quantum decodes to are the three that were
    encoded. *)
Lemma quantum_roundtrip (b0 b1 b2 : byte) :
  let val := Z.lor (Z.lor (Z.shiftl (byte_to_Z b0) 16) (Z.shiftl (byte_to_Z b1) 8))
                   (byte_to_Z b2) in
  let v0 := Z.land (Z.shiftr val 18) 63 in
  let v1 := Z.land (Z.shiftr val 12) 63 in
  let v2 := Z.land (Z.shiftr val 6) 63 in
  let v3 := Z.land val 63 in
  let val' := Z.lor (Z.lor (Z.lor (Z.shiftl v0 18) (Z.shiftl v1 12)) (Z.shiftl v2 6)) v3 in
  byte_of_Z (Z.shiftr val' 16) = b0 /\
  byte_of_Z (Z.shiftr val' 8) = b1 /\
  byte_of_Z val' = b2.
Proof.
  intros val v0 v1 v2 v3 val'.
  pose proof (byte_to_Z_range b0) as R0.
  pose proof (byte_to_Z_range b1) as R1.
  pose proof (byte_to_Z_range b2) as R2.
  assert (Hval : val = byte_to_Z b0 * 65536 + byte_to_Z b1 * 256 + byte_to_Z b2)
    by (apply group_value; assumption).
  assert (Hval' : val' = val).
  { unfold val', v0, v1, v2, v3.
    rewrite quantum_value
      by (rewrite land_63; apply Z.mod_pos_bound; lia).
    rewrite Hval. shifts_to_arith. euclid. }
  rewrite Hval', Hval.
  repeat split; apply byte_of_Z_eq; shifts_to_arith; euclid.
Qed.

Lemma decodeMap_pad : Base64.decodeMap Base64.padChar = 255.
Proof. reflexivity. Qed.

Lemma is_pad_padChar : Base64.is_pad Base64.padChar = true.
Proof. reflexivity. Qed.

Lemma sextet_not_255 (v : Z) : 0 <= v < 64 -> (v =? 255) = false.
Proof. intros. apply Z.eqb_neq. lia. Qed.

(** The byte a quantum ending in two padding characters decodes to. *)
Lemma remainder1_roundtrip (b0 : byte) :
  let val := Z.shiftl (byte_to_Z b0) 16 in
  let v0 := Z.land (Z.shiftr val 18) 63 in
  let v1 := Z.land (Z.shiftr val 12) 63 in
  byte_of_Z (Z.shiftr (Z.lor (Z.shiftl v0 18) (Z.shiftl v1 12)) 16) = b0.
Proof.
  intros val v0 v1. pose proof (byte_to_Z_range b0) as R0.
  apply byte_of_Z_eq.
  pose proof (quantum_value v0 v1 0 0) as Hq.
  rewrite Z.shiftl_0_l, !Z.lor_0_r in Hq. rewrite Hq; clear Hq;
    try (unfold v0, v1; rewrite land_63; apply Z.mod_pos_bound); try lia.
  unfold v0, v1, val. shifts_to_arith. euclid.
Qed.

(** The two bytes a quantum ending in one padding character decodes to. *)
Lemma remainder2_roundtrip (b0 b1 : byte) :
  let val := Z.lor (Z.shiftl (byte_to_Z b0) 16) (Z.shiftl (byte_to_Z b1) 8) in
  let v0 := Z.land (Z.shiftr val 18) 63 in
  let v1 := Z.land (Z.shiftr val 12) 63 in
  let v2 := Z.land (Z.shiftr val 6) 63 in
  let val' := Z.lor (Z.lor (Z.shiftl v0 18) (Z.shiftl v1 12)) (Z.shiftl v2 6) in
  byte_of_Z (Z.shiftr val' 16) = b0 /\ byte_of_Z (Z.shiftr val' 8) = b1.
Proof.
  intros val v0 v1 v2 val'.
  pose proof (byte_to_Z_range b0) as R0. pose proof (byte_to_Z_range b1) as R1.
  assert (Hval : val = byte_to_Z b0 * 65536 + byte_to_Z b1 * 256).
  { pose proof (group_value (byte_to_Z b0) (byte_to_Z b1) 0 R0 R1 ltac:(lia)) as Hg.
    rewrite Z.lor_0_r in Hg. unfold val. rewrite Hg. lia. }
  assert (Hval' : val' = v0 * 262144 + v1 * 4096 + v2 * 64).
  { pose proof (quantum_value v0 v1 v2 0) as Hq.
    rewrite Z.lor_0_r in Hq. unfold val'. rewrite Hq;
      try (unfold v0, v1, v2; rewrite land_63; apply Z.mod_pos_bound); lia. }
  split; apply byte_of_Z_eq; rewrite Hval'; unfold v0, v1, v2; rewrite Hval;
    shifts_to_arith; euclid.
Qed.

Lemma decodeQuanta_encode (bs : list byte) :
  Base64.decodeQuanta (list_ascii_of_string (Base64.EncodeToString bs)) = Ok bs.
Proof.
  induction bs as [| b0 | b0 b1 | b0 b1 b2 rest IH] using list_ind3.
  - reflexivity.
  - (* one byte, "xx==" *)
    cbn [Base64.EncodeToString list_ascii_of_string Base64.decodeQuanta].
    rewrite !decodeMap_sextet, decodeMap_pad.
    rewrite !sextet_not_255 by apply sextet_range.
    rewrite is_pad_padChar.
    cbn [orb Z.eqb Pos.eqb Base64.no_more andb].
    rewrite remainder1_roundtrip. reflexivity.
  - cbn [Base64.EncodeToString list_ascii_of_string Base64.decodeQuanta].
    rewrite !decodeMap_sextet, decodeMap_pad.
    rewrite !sextet_not_255 by apply sextet_range.
    rewrite is_pad_padChar.
    cbn [orb Z.eqb Pos.eqb Base64.no_more andb].
    destruct (remainder2_roundtrip b0 b1) as [H0 H1]. cbv zeta in H0, H1.
    rewrite H0, H1. reflexivity.
  - cbn [Base64.EncodeToString list_ascii_of_string Base64.decodeQuanta].
    rewrite !decodeMap_sextet, decodeMap_land.
    rewrite !sextet_not_255
      by (apply sextet_range || (rewrite land_63; apply Z.mod_pos_bound; lia)).
    cbn [orb]. rewrite IH. cbn [rbind].
    destruct (quantum_roundtrip b0 b1 b2) as (H0 & H1 & H2). cbv zeta in H0, H1, H2.
    rewrite H0, H1, H2. reflexivity.
Qed.

Lemma filter_all {A} (f : A -> bool) (l : list A) :
  forallb f l = true -> filter f l = l.
Proof.
  induction l as [| a l IH]; cbn; [reflexivity |].
  intros H. apply andb_true_iff in H as [Ha Hl]. rewrite Ha, IH by exact Hl. reflexivity.
Qed.

Lemma encoded_no_newline (bs : list byte) :
  forallb (fun c => negb (Base64.is_newline c))
          (list_ascii_of_string (Base64.EncodeToString bs)) = true.
Proof.
  induction bs as [| b0 | b0 b1 | b0 b1 b2 rest IH] using list_ind3;
    cbn [Base64.EncodeToString list_ascii_of_string forallb];
    rewrite ?encode_not_newline
      by (apply sextet_range || (rewrite land_63; apply Z.mod_pos_bound; lia));
    try rewrite IH; reflexivity.
Qed.

(** [DecodeString] returns the bytes [EncodeToString] was given. *)
Lemma DecodeString_EncodeToString (bs : list byte) :
  Base64.DecodeString (Base64.EncodeToString bs) = Ok bs.
Proof.
  unfold Base64.DecodeString.
  rewrite filter_all by apply encoded_no_newline.
  apply decodeQuanta_encode.
Qed.

(** ** Base64: what [DecodeString] rejects *)

Lemma list_ind4 {A} (P : list A -> Prop) :
  P [] -> (forall a, P [a]) -> (forall a b, P [a; b]) -> (forall a b c, P [a; b; c]) ->
  (forall a b c d l, P l -> P (a :: b :: c :: d :: l)) ->
  forall l, P l.
Proof.
  intros H0 H1 H2 H3 H4.
  assert (Hn : forall n l, (List.length l <= n)%nat -> P l).
  { induction n as [| n IH]; intros l Hl.
    - destruct l; [exact H0 | simpl in Hl; lia].
    - destruct l as [| a [| b [| c [| d l]]]]; auto.
      apply H4, IH. simpl in Hl. lia. }
  intros l. apply (Hn (List.length l)). lia.
Qed.

(** The only error of [DecodeString] is the corrupt-input error. *)
Lemma decodeQuanta_error (src : list ascii) (e : Error) :
  Base64.decodeQuanta src = Err e -> e = Base64DecodeError.
Proof.
  induction src as [| a | a b | a b c | c0 c1 c2 c3 rest IH] using list_ind4;
    cbn [Base64.decodeQuanta]; try congruence.
  cbv zeta.
  destruct ((Base64.decodeMap c0 =? 255) || (Base64.decodeMap c1 =? 255)); [congruence |].
  destruct (Base64.decodeMap c2 =? 255).
  { destruct (Base64.is_pad c2 && Base64.is_pad c3 && Base64.no_more rest); congruence. }
  destruct (Base64.decodeMap c3 =? 255).
  { destruct (Base64.is_pad c3 && Base64.no_more rest); congruence. }
  destruct (Base64.decodeQuanta rest) as [bs | e'] eqn:Hr; cbn [rbind]; [congruence |].
  intros He. inversion He; subst. apply IH. reflexivity.
Qed.

(** A text with a byte that is neither of the alphabet nor padding nor a
    line break is rejected. *)
Lemma decodeQuanta_foreign_char (src : list ascii) (c : ascii) :
  In c src -> Base64.decodeMap c = 255 -> Base64.is_pad c = false ->
  Base64.decodeQuanta src = Err Base64DecodeError.
Proof.
  intros Hin Hc Hp. revert Hin.
  induction src as [| a | a b | a b d | c0 c1 c2 c3 rest IH] using list_ind4;
    cbn [Base64.decodeQuanta]; try reflexivity; [intros [] |].
  intros Hin. cbv zeta.
  destruct ((Base64.decodeMap c0 =? 255) || (Base64.decodeMap c1 =? 255)) eqn:H01;
    [reflexivity |].
  apply orb_false_iff in H01 as [H0 H1].
  apply Z.eqb_neq in H0, H1.
  destruct Hin as [-> | [-> | Hin]]; [congruence | congruence |].
  destruct (Base64.decodeMap c2 =? 255) eqn:H2.
  { destruct Hin as [-> | [-> | Hin]].
    - rewrite Hp. reflexivity.
    - rewrite Hp, andb_false_r. reflexivity.
    - destruct rest; [destruct Hin |]. cbn [Base64.no_more].
      rewrite andb_false_r. reflexivity. }
  apply Z.eqb_neq in H2.
  destruct Hin as [-> | Hin]; [congruence |].
  destruct (Base64.decodeMap c3 =? 255) eqn:H3.
  { destruct Hin as [-> | Hin].
    - rewrite Hp. reflexivity.
    - destruct rest; [destruct Hin |]. cbn [Base64.no_more].
      rewrite andb_false_r. reflexivity. }
  apply Z.eqb_neq in H3.
  destruct Hin as [-> | Hin]; [congruence |].
  rewrite (IH Hin). reflexivity.
Qed.

Lemma DecodeString_foreign_char (s : string) (c : ascii) :
  In c (list_ascii_of_string s) ->
  Base64.decodeMap c = 255 -> Base64.is_pad c = false -> Base64.is_newline c = false ->
  Base64.DecodeString s = Err Base64DecodeError.
Proof.
  intros Hin Hc Hp Hn. unfold Base64.DecodeString.
  apply (decodeQuanta_foreign_char _ c); [| exact Hc | exact Hp].
  apply filter_In. split; [exact Hin |]. rewrite Hn. reflexivity.
Qed.

(** A division by a zero denominator gives no finite number. *)
Lemma div_zero_not_finite (x : float64) (s : bool) :
  is_nan (div x (S754_zero s)) || is_inf (div x (S754_zero s)) = true.
Proof. destruct x; reflexivity. Qed.

(** ** One tick of the client *)

Section Tick.
Context `{Primitives}.
Import Client.

Ltac tick_unfold H :=
  unfold tick in H;
  unfold Set_, incr_counter, Inc_encryptionCounter, accumulate, when in H;
  unfold bind, try, get, modify, ret in H;
  cbv beta iota zeta in H.

(* Split on every call of the tick whose result decides how it goes on. *)
Ltac tick_cases H :=
  tick_unfold H;
  repeat (match type of H with
  | context [match ?r with Ok _ => _ | Err _ => _ end] =>
      let E := fresh "E" in destruct r as [? | ?] eqn:E
  | context [if ?c then _ else _] =>
      let E := fresh "E" in destruct c eqn:E
  | context [let (_, _) := ?p in _] =>
      let E := fresh "E" in destruct p as [? ?] eqn:E
  end; cbv beta iota zeta in H).

(** The tick stops where the first of its calls fails. *)
Lemma tick_outcome_calls (inp : TickInput) (st : State) :
  tick_outcome inp st = calls inp (next_message st).
Proof.
  unfold tick_outcome. destruct (tick inp st) as [st' o] eqn:Ht. cbn [snd].
  tick_cases Ht.
  all: inversion Ht; subst; clear Ht.
  all: unfold calls, next_message; cbn [counter next_counter] in *.
  all: repeat match goal with
       | E : ?r = _ |- context [?r] => rewrite E
       end; reflexivity.
Qed.


(** What a completed tick has written. *)
Lemma tick_done (inp : TickInput) (st st' : State) (s : Summary) :
  tick inp st = (st', Done s) ->
  let r := Seconds (rsaEncryptDuration inp) in
  let m := Seconds (mlkemEncapsulateDuration inp) in
  (operationCount st' = wrap64 (operationCount st + 1) /\
   rsaTotalDuration st' = add (rsaTotalDuration st) r /\
   mlkemTotalDuration st' = add (mlkemTotalDuration st) m /\
   encryptionCounter st' = (encryptionCounter st + 1) mod 2 ^ 64 /\
   counter st' = wrap64 (counter st + 1)) /\
  (gauges st' rsaPublicKeySize = of_int (len (rsaPubKeyBytes s)) /\
   gauges st' mlkemPublicKeySize = of_int (len (mlkemPubKeyBytes s)) /\
   gauges st' rsaEncryptedKeySize = of_int (len (rsaEncryptedAESKey s)) /\
   gauges st' mlkemEncryptedKeySize = of_int (len (mlkemCiphertext s)) /\
   gauges st' rsaEncryptionDuration = r /\
   gauges st' mlkemEncapsulationDuration = m) /\
  (gauges st' rsaEncryptionDurationAvg
     = div (rsaTotalDuration st') (of_int (operationCount st')) /\
   gauges st' mlkemEncapsulationDurationAvg
     = div (mlkemTotalDuration st') (of_int (operationCount st'))) /\
  (gauges st' encryptionDurationRatio
     = (if gtb r zero then div m r else gauges st encryptionDurationRatio) /\
   gauges st' encryptedKeySizeRatio
     = (if len (rsaEncryptedAESKey s) >? 0
        then div (of_int (len (mlkemCiphertext s))) (of_int (len (rsaEncryptedAESKey s)))
        else gauges st encryptedKeySizeRatio) /\
   gauges st' publicKeySizeRatio
     = (if len (rsaPubKeyBytes s) >? 0
        then div (of_int (len (mlkemPubKeyBytes s))) (of_int (len (rsaPubKeyBytes s)))
        else gauges st publicKeySizeRatio)).
Proof.
  intros Ht. tick_cases Ht.
  all: inversion Ht; subst; clear Ht.
  all: cbn [rsaPubKeyBytes mlkemPubKeyBytes rsaEncryptedAESKey mlkemCiphertext].
  all: repeat match goal with E : _ = true |- _ => rewrite E | E : _ = false |- _ => rewrite E end.
  all: cbn; repeat split; reflexivity.
Qed.

(** What a tick that was left early has written. *)
Lemma tick_aborted (inp : TickInput) (st st' : State) (s : Step) (e : Error) :
  tick inp st = (st', Aborted s e) ->
  (operationCount st' = operationCount st /\
   rsaTotalDuration st' = rsaTotalDuration st /\
   mlkemTotalDuration st' = mlkemTotalDuration st /\
   encryptionCounter st' = (encryptionCounter st + 1) mod 2 ^ 64 /\
   counter st' = wrap64 (counter st + 1)) /\
  (forall g, ~ In g (written_before s) -> gauges st' g = gauges st g).
Proof.
  intros Ht. tick_cases Ht.
  all: inversion Ht; subst; clear Ht.
  all: split; [cbn; repeat split; reflexivity |].
  all: intros g Hg; cbn in Hg; destruct g; cbn; try reflexivity; exfalso; tauto.
Qed.
Lemma tick_split (inp : TickInput) (st : State) :
  tick inp st = (tick_state inp st, tick_outcome inp st).
Proof. unfold tick_state, tick_outcome. destruct (tick inp st). reflexivity. Qed.

(** The effects of a tick that is left early. *)
Lemma tick_aborted_effects (inp : TickInput) (st : State) (s : Step) (e : Error) :
  tick_outcome inp st = Aborted s e ->
  let st' := tick_state inp st in
  calls inp (next_message st) = Aborted s e /\
  (operationCount st' = operationCount st /\
   rsaTotalDuration st' = rsaTotalDuration st /\
   mlkemTotalDuration st' = mlkemTotalDuration st) /\
  (forall g, ~ In g (written_before s) -> gauges st' g = gauges st g) /\
  (forall g, In g [rsaEncryptionDurationAvg; mlkemEncapsulationDurationAvg;
                   encryptionDurationRatio; encryptedKeySizeRatio;
                   publicKeySizeRatio;
                   mlkemEncryptedKeySize; mlkemEncapsulationDuration] ->
             gauges st' g = gauges st g) /\
  encryptionCounter st' = (encryptionCounter st + 1) mod 2 ^ 64.
Proof.
  intros Ho st'.
  pose proof (tick_split inp st) as Ht. rewrite Ho in Ht. fold st' in Ht.
  destruct (tick_aborted _ _ _ _ _ Ht) as [(Hc & Hr & Hm & Hn & _) Hg].
  split; [rewrite <- tick_outcome_calls; exact Ho |].
  split; [auto |]. split; [exact Hg |]. split; [| exact Hn].
  intros g Hin. apply Hg. intros Hw.
  destruct s; cbn in Hin, Hw;
    repeat (destruct Hin as [<- | Hin]; [intuition discriminate |]); tauto.
Qed.

(** The gauges a tick that was left early had set by then hold the values
    of this tick. *)
Lemma tick_aborted_written (inp : TickInput) (st : State) (s : Step) (e : Error) :
  tick_outcome inp st = Aborted s e ->
  let st' := tick_state inp st in
  (In rsaPublicKeySize (written_before s) ->
   exists k b,
     fetchPublicKey (http_Get inp) rsa_url = Ok (k, b) /\
     gauges st' rsaPublicKeySize = of_int (len b)) /\
  (In mlkemPublicKeySize (written_before s) ->
   exists k b,
     fetchMLKEMPublicKey (http_Get inp) mlkem_url = Ok (k, b) /\
     gauges st' mlkemPublicKeySize = of_int (len b)) /\
  (In rsaEncryptedKeySize (written_before s) ->
   exists k b aesKey rnd2 c iv rnd3 w rnd4,
     fetchPublicKey (http_Get inp) rsa_url = Ok (k, b) /\
     ReadFull (rand_Reader inp) 32 = (Ok aesKey, rnd2) /\
     encryptAES rnd2 (list_byte_of_string (next_message st)) aesKey
       = (Ok (c, iv), rnd3) /\
     encryptRSA rnd3 k aesKey = (Ok w, rnd4) /\
     gauges st' rsaEncryptedKeySize = of_int (len w)) /\
  (In rsaEncryptionDuration (written_before s) ->
   gauges st' rsaEncryptionDuration = Seconds (rsaEncryptDuration inp)).
Proof.
  intros Ho st'.
  pose proof (tick_split inp st) as Ht. rewrite Ho in Ht. fold st' in Ht.
  clearbody st'. clear Ho. unfold next_message.
  tick_cases Ht.
  all: inversion Ht; subst; clear Ht.
  all: cbn [written_before In].
  all: repeat split; intros Hin;
         try (exfalso; intuition discriminate); clear Hin.
  all: repeat eexists; first [eassumption | reflexivity].
Qed.

(** C1, as amended.  A tick that fails is left at the first call that
    fails.  It leaves the running statistics as they were, and every gauge
    that is set after the failing step: both averages, the three ratios and
    in every case the two ML-KEM wrap gauges.  The gauges of the steps that
    completed before the failure are already written and hold the values
    of this tick: the RSA public-key size when the RSA fetch succeeded,
    the ML-KEM public-key size when the ML-KEM fetch succeeded too, the RSA
    wrapped-key size and the RSA wrap duration when the tick came as far as
    the ML-KEM wrap.  The operation counter has been incremented. *)
Theorem C1_aborted_tick (inp : TickInput) (st : State) (s : Step) (e : Error) :
  tick_outcome inp st = Aborted s e ->
  let st' := tick_state inp st in
  calls inp (next_message st) = Aborted s e /\
  (operationCount st' = operationCount st /\
   rsaTotalDuration st' = rsaTotalDuration st /\
   mlkemTotalDuration st' = mlkemTotalDuration st) /\
  (forall g, ~ In g (written_before s) -> gauges st' g = gauges st g) /\
  (forall g, In g [rsaEncryptionDurationAvg; mlkemEncapsulationDurationAvg;
                   encryptionDurationRatio; encryptedKeySizeRatio;
                   publicKeySizeRatio;
                   mlkemEncryptedKeySize; mlkemEncapsulationDuration] ->
             gauges st' g = gauges st g) /\
  encryptionCounter st' = (encryptionCounter st + 1) mod 2 ^ 64 /\
  (In rsaPublicKeySize (written_before s) ->
   exists k b,
     fetchPublicKey (http_Get inp) rsa_url = Ok (k, b) /\
     gauges st' rsaPublicKeySize = of_int (len b)) /\
  (In mlkemPublicKeySize (written_before s) ->
   exists k b,
     fetchMLKEMPublicKey (http_Get inp) mlkem_url = Ok (k, b) /\
     gauges st' mlkemPublicKeySize = of_int (len b)) /\
  (In rsaEncryptedKeySize (written_before s) ->
   exists k b aesKey rnd2 c iv rnd3 w rnd4,
     fetchPublicKey (http_Get inp) rsa_url = Ok (k, b) /\
     ReadFull (rand_Reader inp) 32 = (Ok aesKey, rnd2) /\
     encryptAES rnd2 (list_byte_of_string (next_message st)) aesKey
       = (Ok (c, iv), rnd3) /\
     encryptRSA rnd3 k aesKey = (Ok w, rnd4) /\
     gauges st' rsaEncryptedKeySize = of_int (len w)) /\
  (In rsaEncryptionDuration (written_before s) ->
   gauges st' rsaEncryptionDuration = Seconds (rsaEncryptDuration inp)).
Proof.
  intros Ho st'.
  pose proof (tick_aborted_effects inp st s e Ho) as He.
  pose proof (tick_aborted_written inp st s e Ho) as Hw.
  cbv zeta in He, Hw. fold st' in He, Hw.
  destruct He as (Hc & Hs & Hg & Hl & Hn).
  repeat (split; [assumption |]). exact Hw.
Qed.

(** C3.  When the payload of a key fetch is not base64, that fetch returns
    the base64 decode error, the tick is left at that step with this error,
    and the cumulative durations and the operation count are the ones the
    tick started with. *)
Theorem C3_malformed_base64 (inp : TickInput) (st : State) (s : Step) :
  malformed_payload inp s ->
  let st' := tick_state inp st in
  fetch_result inp s = Err Base64DecodeError /\
  tick_outcome inp st = Aborted s Base64DecodeError /\
  operationCount st' = operationCount st /\
  rsaTotalDuration st' = rsaTotalDuration st /\
  mlkemTotalDuration st' = mlkemTotalDuration st.
Proof.
  intros Hbad st'.
  assert (Hf : fetch_result inp s = Err Base64DecodeError /\
               calls inp (next_message st) = Aborted s Base64DecodeError).
  { destruct s; cbn in Hbad; try contradiction.
    - destruct Hbad as (p & Hget & Hdec).
      unfold fetch_result, calls, fetchPublicKey. rewrite Hget. cbn.
      destruct (Base64.DecodeString (public_key p)); [discriminate |].
      split; reflexivity.
    - destruct Hbad as (Hrsa & p & Hget & Hdec).
      unfold fetch_result, calls.
      destruct (fetchPublicKey (http_Get inp) rsa_url) as [[k b] |]; [| discriminate].
      unfold fetchMLKEMPublicKey. rewrite Hget. cbn.
      destruct (Base64.DecodeString (public_key p)); [discriminate |].
      split; reflexivity. }
  destruct Hf as [Hf Hc]. rewrite <- tick_outcome_calls in Hc.
  split; [exact Hf |]. split; [exact Hc |].
  apply (tick_aborted_effects inp st s Base64DecodeError Hc).
Qed.

Lemma Seconds_0 : Seconds 0 = zero.
Proof. reflexivity. Qed.

Lemma gtb_zero (x : float64) : is_zero x = true -> gtb x zero = false.
Proof. destruct x as [[|] | | |]; cbn; try discriminate; reflexivity. Qed.

(** C4.  In a tick in which the classical-side denominator of a ratio is
    zero (the RSA wrap duration in seconds for the duration ratio, as it is
    when the measured duration is 0; the length of the RSA-wrapped key for
    the wrapped-key-size ratio; the length of the RSA public key for the
    public-key-size ratio), the gauge of that ratio is not set: it has the
    value it had before the tick, whatever that was, and so no quotient by
    zero, infinite or NaN, reaches it. *)
Theorem C4_zero_denominator (r : Ratio) (inp : TickInput) (st : State) :
  zero_denominator r inp (tick_outcome inp st) ->
  gauges (tick_state inp st) (ratio_gauge r) = gauges st (ratio_gauge r).
Proof.
  intros Hz. pose proof (tick_split inp st) as Ht.
  destruct (tick_outcome inp st) as [s | step e] eqn:Ho.
  - destruct (tick_done _ _ _ _ Ht) as (_ & _ & _ & Hd & Hk & Hp).
    destruct r; cbn in Hz |- *.
    + rewrite Hd, (gtb_zero _ Hz). reflexivity.
    + rewrite Hk, Hz. reflexivity.
    + rewrite Hp, Hz. reflexivity.
  - destruct r; cbn in Hz; try contradiction.
    destruct (tick_aborted_effects inp st step e Ho) as (_ & _ & _ & Hg & _).
    apply Hg. cbn. tauto.
Qed.

(** C5.  In a completed tick each ratio gauge that is set is set to the
    post-quantum value divided by the classical value of that same tick:
    ML-KEM over RSA wrap duration, ML-KEM ciphertext length over RSA
    ciphertext length, ML-KEM over RSA public-key length.  With wrap
    durations of 100 ms and 2 ms the duration ratio is the [float64]
    nearest to 0.02; with wrapped sizes of 270 and 1088 bytes the size
    ratio is the [float64] nearest to 1088/270, within 0.00005 of 4.0296. *)
Theorem C5_ratios (inp : TickInput) (st : State) (s : Summary) :
  tick_outcome inp st = Done s ->
  let st' := tick_state inp st in
  let r := Seconds (rsaEncryptDuration inp) in
  let m := Seconds (mlkemEncapsulateDuration inp) in
  (gauges st' encryptionDurationRatio
     = (if gtb r zero then div m r else gauges st encryptionDurationRatio) /\
   gauges st' encryptedKeySizeRatio
     = (if len (rsaEncryptedAESKey s) >? 0
        then div (of_int (len (mlkemCiphertext s))) (of_int (len (rsaEncryptedAESKey s)))
        else gauges st encryptedKeySizeRatio) /\
   gauges st' publicKeySizeRatio
     = (if len (rsaPubKeyBytes s) >? 0
        then div (of_int (len (mlkemPubKeyBytes s))) (of_int (len (rsaPubKeyBytes s)))
        else gauges st publicKeySizeRatio)) /\
  (rsaEncryptDuration inp = 100 * Millisecond ->
   mlkemEncapsulateDuration inp = 2 * Millisecond ->
   gauges st' encryptionDurationRatio = div (of_int 2) (of_int 100) /\
   dist_le (gauges st' encryptionDurationRatio) 2 100 1 (2 ^ 59)) /\
  (len (rsaEncryptedAESKey s) = 270 ->
   len (mlkemCiphertext s) = 1088 ->
   gauges st' encryptedKeySizeRatio = div (of_int 1088) (of_int 270) /\
   dist_le (gauges st' encryptedKeySizeRatio) 1088 270 1 (2 ^ 51) /\
   dist_le (gauges st' encryptedKeySizeRatio) 40296 10000 1 20000).
Proof.
  intros Ho st' r m.
  pose proof (tick_split inp st) as Ht. rewrite Ho in Ht.
  destruct (tick_done _ _ _ _ Ht) as (_ & _ & _ & Hd & Hk & Hp).
  fold st' r m in Hd, Hk, Hp.
  split; [auto |]. split.
  - intros Hr Hm. rewrite Hd. unfold r, m. rewrite Hr, Hm.
    split; [vm_compute; reflexivity |].
    unfold dist_le. vm_compute. discriminate.
  - intros Hr Hm. rewrite Hk, Hr, Hm.
    split; [vm_compute; reflexivity |].
    split; unfold dist_le; vm_compute; discriminate.
Qed.

Lemma wrap64_small (z : Z) : - 2 ^ 63 <= z < 2 ^ 63 -> wrap64 z = z.
Proof.
  intros Hz. unfold wrap64. rewrite Z.mod_small; lia.
Qed.

(** C9.  A completed tick adds one to the operation count, which is the
    count of either scheme, and adds one sample to each cumulative
    duration: the RSA wrap duration and the ML-KEM wrap duration of that
    tick.  A tick that is left early adds nothing.  (The count is a Go
    [int]; the statement is for a count below the largest [int].) *)
Theorem C9_one_sample_per_tick (inp : TickInput) (st : State) :
  - 2 ^ 63 <= operationCount st < 2 ^ 63 - 1 ->
  let st' := tick_state inp st in
  match tick_outcome inp st with
  | Done _ =>
      operationCount st' = operationCount st + 1 /\
      rsaTotalDuration st'
        = add (rsaTotalDuration st) (Seconds (rsaEncryptDuration inp)) /\
      mlkemTotalDuration st'
        = add (mlkemTotalDuration st) (Seconds (mlkemEncapsulateDuration inp))
  | Aborted _ _ =>
      operationCount st' = operationCount st /\
      rsaTotalDuration st' = rsaTotalDuration st /\
      mlkemTotalDuration st' = mlkemTotalDuration st
  end.
Proof.
  intros Hc st'. pose proof (tick_split inp st) as Ht.
  destruct (tick_outcome inp st) as [s | step e] eqn:Ho.
  - destruct (tick_done _ _ _ _ Ht) as ((Hn & Hr & Hm & _) & _).
    fold st' in Hn, Hr, Hm. rewrite Hn, wrap64_small by lia. auto.
  - destruct (tick_aborted _ _ _ _ _ Ht) as [(Hn & Hr & Hm & _) _]. auto.
Qed.

(** ** Runs of ticks *)

Lemma len_cons {A} (a : A) (l : list A) : len (a :: l) = 1 + len l.
Proof. unfold len. cbn [List.length]. lia. Qed.

Lemma len_app {A} (l1 l2 : list A) : len (l1 ++ l2) = len l1 + len l2.
Proof. unfold len. rewrite length_app. lia. Qed.

Lemma len_nonneg {A} (l : list A) : 0 <= len l.
Proof. unfold len. lia. Qed.

(** The operation count is the number of completed ticks, and each
    cumulative duration is the sum of their samples in tick order. *)
Lemma run_stats (inps : list TickInput) :
  forall st,
    let ok := completed_ticks inps st in
    0 <= operationCount st ->
    operationCount st + len ok < 2 ^ 63 ->
    operationCount (run inps st) = operationCount st + len ok /\
    rsaTotalDuration (run inps st)
      = total (rsaTotalDuration st)
              (map (fun i => Seconds (rsaEncryptDuration i)) ok) /\
    mlkemTotalDuration (run inps st)
      = total (mlkemTotalDuration st)
              (map (fun i => Seconds (mlkemEncapsulateDuration i)) ok).
Proof.
  induction inps as [| inp rest IH]; intros st ok H0 Hlt.
  - cbn. unfold ok, len. cbn. repeat split; lia.
  - cbn [run]. unfold ok in *. cbn [completed_ticks] in *.
    pose proof (tick_split inp st) as Ht.
    pose proof (len_nonneg (completed_ticks rest (tick_state inp st))) as Hpos.
    destruct (tick_outcome inp st) as [s | step e] eqn:Ho; cbn [completed] in *.
    + destruct (tick_done _ _ _ _ Ht) as ((Hn & Hr & Hm & _) & _).
      rewrite len_app in Hlt. change (len [inp]) with 1 in Hlt.
      rewrite wrap64_small in Hn by lia.
      destruct (IH (tick_state inp st)) as (IHn & IHr & IHm); [lia | lia |].
      rewrite IHn, IHr, IHm, Hn, Hr, Hm, len_app.
      change (len [inp]) with 1. cbn [app map total fold_left].
      repeat split; try reflexivity. lia.
    + destruct (tick_aborted _ _ _ _ _ Ht) as [(Hn & Hr & Hm & _) _].
      cbn [app] in *.
      destruct (IH (tick_state inp st)) as (IHn & IHr & IHm); [lia | lia |].
      rewrite IHn, IHr, IHm, Hn, Hr, Hm. repeat split; reflexivity.
Qed.

Lemma len_completed_ticks (inps : list TickInput) :
  forall st, len (completed_ticks inps st) <= len inps.
Proof.
  induction inps as [| inp rest IH]; intros st; cbn [completed_ticks]; [reflexivity |].
  rewrite len_app, len_cons. specialize (IH (tick_state inp st)).
  destruct (completed (tick_outcome inp st)); [change (len [inp]) with 1 | change (len (@nil TickInput)) with 0]; lia.
Qed.

(** In a process that has run fewer than [2 ^ 63 - 1] ticks the operation
    count has not reached the largest [int]. *)
Lemma run_operationCount_range (inps : list TickInput) :
  len inps < 2 ^ 63 - 1 ->
  0 <= operationCount (run inps init) <= len inps /\
  operationCount (run inps init) < 2 ^ 63 - 1.
Proof.
  intros Hn. pose proof (len_completed_ticks inps init) as Hc.
  pose proof (len_nonneg (completed_ticks inps init)) as Hp.
  destruct (run_stats inps init) as (Ho & _); cbn [init operationCount]; try lia.
  cbn [init operationCount] in Ho. lia.
Qed.

(** Once a tick has completed, the average gauges show cumulative duration
    over operation count, and ticks that fail do not disturb that. *)
Lemma run_averages (inps : list TickInput) :
  forall st,
    completed_ticks inps st <> [] \/ averages_current st ->
    averages_current (run inps st).
Proof.
  induction inps as [| inp rest IH]; intros st Hst.
  - cbn in *. destruct Hst as [Hne | Hcur]; [contradiction | exact Hcur].
  - cbn [run]. apply IH.
    pose proof (tick_split inp st) as Ht.
    cbn [completed_ticks] in Hst.
    destruct (tick_outcome inp st) as [s | step e] eqn:Ho; cbn [completed app] in Hst.
    + right. destruct (tick_done _ _ _ _ Ht) as (_ & _ & Havg & _). exact Havg.
    + destruct Hst as [Hne | [Hr Hm]]; [left; exact Hne | right].
      destruct (tick_aborted_effects inp st step e Ho)
        as (_ & (Hn & Hrt & Hmt) & _ & Hg & _).
      unfold averages_current.
      rewrite Hn, Hrt, Hmt, !Hg by (cbn; tauto). auto.
Qed.

(** C8, as amended.  After a run from process start in which [n >= 1]
    ticks completed, each running-average gauge is that scheme's cumulative
    wrap duration, the [float64] sum of the [n] samples added in tick
    order, divided by [float64(n)].  (For [n] identical samples the
    quotient is the sample up to rounding, not exactly.) *)
Theorem C8_running_average (inps : list TickInput) :
  let ok := completed_ticks inps init in
  let n := len ok in
  1 <= n < 2 ^ 63 ->
  gauges (run inps init) rsaEncryptionDurationAvg
    = div (total zero (map (fun i => Seconds (rsaEncryptDuration i)) ok))
          (of_int n) /\
  gauges (run inps init) mlkemEncapsulationDurationAvg
    = div (total zero (map (fun i => Seconds (mlkemEncapsulateDuration i)) ok))
          (of_int n).
Proof.
  intros ok n Hn.
  destruct (run_stats inps init) as (Hc & Hr & Hm); [cbn; lia | cbn; fold ok n; lia |].
  fold ok in Hc, Hr, Hm. cbn [init operationCount rsaTotalDuration mlkemTotalDuration] in *.
  destruct (run_averages inps init) as [Ha Hb].
  { left. fold ok. intros Hnil. unfold n in Hn. rewrite Hnil in Hn. cbn in Hn. lia. }
  rewrite Ha, Hb, Hc, Hr, Hm. fold n. rewrite Z.add_0_l. auto.
Qed.

(** C6.  [encryptMLKEM] does not read the key it is asked to wrap: for any
    public key and any stream of [rand.Reader], two payloads give the same
    ciphertext, the same shared secret (or the same error) and leave the
    same stream.  [encryptRSA] hands its payload to RSA-OAEP. *)
Theorem C6_mlkem_ignores_payload
    (rnd : Rand) (publicKey : kyber768_PublicKey) (data1 data2 : list byte) :
  encryptMLKEM rnd publicKey data1 = encryptMLKEM rnd publicKey data2 /\
  encryptMLKEM rnd publicKey data1 = Encapsulate rnd publicKey /\
  forall (pub : rsa_PublicKey), encryptRSA rnd pub data1 = EncryptOAEP rnd pub data1.
Proof.
  split; [reflexivity |]. split.
  - unfold encryptMLKEM. destruct (Encapsulate rnd publicKey) as [[[c ss] | e] rnd'];
      reflexivity.
  - intros pub. unfold encryptRSA.
    destruct (EncryptOAEP rnd pub data1) as [[c | e] rnd']; reflexivity.
Qed.

End Tick.

(** ** Padding and CBC *)

Lemma len_repeat {A} (a : A) (n : nat) : len (repeat a n) = Z.of_nat n.
Proof. unfold len. rewrite repeat_length. reflexivity. Qed.

Lemma padding_of_range (M : list byte) : 1 <= Client.padding_of M <= 16.
Proof.
  unfold Client.padding_of, AES.BlockSize.
  pose proof (Z.mod_pos_bound (len M) 16 ltac:(lia)). lia.
Qed.

Lemma len_padtext_of (M : list byte) : len (Client.padtext_of M) = Client.padding_of M.
Proof.
  unfold Client.padtext_of. rewrite len_repeat.
  pose proof (padding_of_range M). lia.
Qed.

Lemma len_padded (M : list byte) :
  len (M ++ Client.padtext_of M) = 16 * (len M / 16 + 1).
Proof.
  rewrite len_app, len_padtext_of. unfold Client.padding_of, AES.BlockSize.
  pose proof (Z.div_mod (len M) 16 ltac:(lia)). lia.
Qed.

Lemma padding_byte (M : list byte) :
  byte_to_Z (byte_of_Z (Client.padding_of M)) = Client.padding_of M.
Proof.
  rewrite byte_to_of_Z. apply Z.mod_small.
  pose proof (padding_of_range M). lia.
Qed.

Lemma len_firstn {A} (n : nat) (l : list A) :
  Z.of_nat n <= len l -> len (firstn n l) = Z.of_nat n.
Proof. unfold len. intros Hn. rewrite length_firstn. lia. Qed.

Lemma len_skipn {A} (n : nat) (l : list A) :
  len (skipn n l) = Z.max 0 (len l - Z.of_nat n).
Proof. unfold len. rewrite length_skipn. lia. Qed.

Lemma firstn_app_exact {A} (l1 l2 : list A) (n : nat) :
  List.length l1 = n -> firstn n (l1 ++ l2) = l1.
Proof.
  intros <-. rewrite firstn_app, Nat.sub_diag, firstn_all. cbn. apply app_nil_r.
Qed.

Lemma skipn_app_exact {A} (l1 l2 : list A) (n : nat) :
  List.length l1 = n -> skipn n (l1 ++ l2) = l2.
Proof.
  intros <-. rewrite skipn_app, Nat.sub_diag, skipn_all. reflexivity.
Qed.

Lemma len_XORBytes (x y : list byte) :
  len (AES.XORBytes x y) = Z.min (len x) (len y).
Proof.
  revert y. induction x as [| a x IH]; intros [| b y]; cbn [AES.XORBytes];
    unfold len in *; cbn [List.length]; try lia.
  specialize (IH y). lia.
Qed.

Lemma lxor_byte_range (a b : Z) : 0 <= a < 256 -> 0 <= b < 256 -> 0 <= Z.lxor a b < 256.
Proof.
  intros Ha Hb. split; [apply Z.lxor_nonneg; lia |].
  destruct (Z.eq_dec (Z.lxor a b) 0) as [-> | Hnz]; [lia |].
  change 256 with (2 ^ 8). apply Z.log2_lt_pow2.
  - assert (0 <= Z.lxor a b) by (apply Z.lxor_nonneg; lia). lia.
  - pose proof (Z.log2_lxor a b ltac:(lia) ltac:(lia)) as Hl.
    assert (Z.log2 a < 8).
    { destruct (Z.eq_dec a 0) as [-> | ?]; [cbn; lia | apply Z.log2_lt_pow2; lia]. }
    assert (Z.log2 b < 8).
    { destruct (Z.eq_dec b 0) as [-> | ?]; [cbn; lia | apply Z.log2_lt_pow2; lia]. }
    lia.
Qed.

Lemma xor_byte_cancel_r (a b : byte) : AES.xor_byte (AES.xor_byte a b) b = a.
Proof.
  unfold AES.xor_byte. rewrite byte_to_of_Z.
  rewrite Z.mod_small by (apply lxor_byte_range; apply byte_to_Z_range).
  rewrite Z.lxor_assoc, Z.lxor_nilpotent, Z.lxor_0_r. apply byte_of_to_Z.
Qed.

Lemma xor_byte_comm (a b : byte) : AES.xor_byte a b = AES.xor_byte b a.
Proof. unfold AES.xor_byte. rewrite Z.lxor_comm. reflexivity. Qed.

Lemma XORBytes_cancel (x y : list byte) :
  len x = len y -> AES.XORBytes (AES.XORBytes x y) y = x.
Proof.
  revert y. induction x as [| a x IH]; intros [| b y] Hlen;
    unfold len in Hlen; cbn [List.length] in Hlen; try lia; [reflexivity |].
  cbn [AES.XORBytes]. rewrite xor_byte_cancel_r, IH; [reflexivity |].
  unfold len. lia.
Qed.

Lemma len_overwrite (dst out : list byte) : len (AES.overwrite dst out) = len dst.
Proof.
  unfold AES.overwrite. rewrite len_app, len_skipn. unfold len.
  rewrite length_firstn. lia.
Qed.

Lemma overwrite_all (dst out : list byte) :
  len dst = len out -> AES.overwrite dst out = out.
Proof.
  unfold AES.overwrite, len. intros Hl. apply Nat2Z.inj in Hl.
  rewrite Hl, firstn_all, skipn_all2 by lia. apply app_nil_r.
Qed.

Lemma len_firstn_skipn {A} (n : nat) (l : list A) :
  len (firstn n l) + len (skipn n l) = len l.
Proof. rewrite <- len_app, firstn_skipn. reflexivity. Qed.

Lemma ReadFull_ok (rnd : Rand) (n : Z) (bs : list byte) (rnd' : Rand) :
  0 <= n -> ReadFull rnd n = (Ok bs, rnd') -> len bs = n.
Proof.
  intros Hn. unfold ReadFull. destruct (Z.leb_spec n (len rnd)); [| discriminate].
  intros Hr. inversion Hr; subst. rewrite len_firstn; lia.
Qed.

Lemma all_eqb_repeat (p : byte) (n : nat) : Receiver.all_eqb p (repeat p n) = true.
Proof.
  unfold Receiver.all_eqb. induction n as [| n IH]; cbn; [reflexivity |].
  rewrite (Byte.byte_dec_lb (eq_refl p)). exact IH.
Qed.

Lemma rev_repeat {A} (a : A) (n : nat) : rev (repeat a n) = repeat a n.
Proof.
  induction n as [| n IH]; [reflexivity |].
  cbn [repeat rev]. rewrite IH. symmetry. apply repeat_cons.
Qed.

(** Stripping the padding [encryptAES] appends gives the message back. *)
Lemma strip_padding_padded (M : list byte) :
  Receiver.strip_padding (M ++ Client.padtext_of M) = Some M.
Proof.
  pose proof (padding_of_range M) as Hp.
  unfold Receiver.strip_padding.
  rewrite rev_app_distr. unfold Client.padtext_of at 1.
  rewrite rev_repeat.
  destruct (Z.to_nat (Client.padding_of M)) as [| n] eqn:Hn; [lia |].
  cbn [repeat app]. cbv zeta.
  rewrite padding_byte, len_app, len_padtext_of.
  replace (len M + Client.padding_of M - Client.padding_of M) with (len M) by lia.
  unfold len at 2 3. rewrite Nat2Z.id.
  rewrite skipn_app_exact, firstn_app_exact by reflexivity.
  unfold Client.padtext_of. rewrite all_eqb_repeat.
  unfold AES.BlockSize.
  destruct (Z.leb_spec 1 (Client.padding_of M)); [| lia].
  destruct (Z.leb_spec (Client.padding_of M) 16); [| lia].
  destruct (Z.leb_spec 0 (len M)); [| pose proof (len_nonneg M); lia].
  reflexivity.
Qed.

Section Cipher.
Context `{Primitives}.

(** [CryptBlocks] fills the buffer it is given and returns it as long as
    it was. *)
Lemma CryptBlocks_loop_len (b : AES.Block) (n : nat) :
  forall iv dst src, len (AES.CryptBlocks_loop b n iv dst src) = len dst.
Proof.
  induction n as [| n IH]; intros iv dst src; [reflexivity |].
  cbn [AES.CryptBlocks_loop]. destruct src as [| a src']; [reflexivity |].
  cbv zeta. rewrite len_app, IH, !len_overwrite. apply len_firstn_skipn.
Qed.

(** What a successful [encryptAES] returns. *)
Lemma encryptAES_ok (rnd : Rand) (M key c iv : list byte) (rnd' : Rand) :
  Client.encryptAES rnd M key = (Ok (c, iv), rnd') ->
  let padded := M ++ Client.padtext_of M in
  exists block,
    AES.NewCipher key = Ok block /\
    ReadFull rnd AES.BlockSize = (Ok iv, rnd') /\
    len iv = AES.BlockSize /\
    c = AES.CryptBlocks block iv (repeat x00 (List.length padded)) padded.
Proof.
  unfold Client.encryptAES.
  destruct (AES.NewCipher key) as [block | e] eqn:Hk; [| discriminate].
  destruct (ReadFull rnd AES.BlockSize) as [[iv0 | e] rnd0] eqn:Hr; [| discriminate].
  intros Hc. inversion Hc; subst; clear Hc.
  exists block. repeat split; try reflexivity.
  apply (ReadFull_ok rnd AES.BlockSize iv rnd'); [unfold AES.BlockSize; lia | exact Hr].
Qed.


(** C10.  [encryptAES] appends [padding] bytes, each of value [padding],
    with [1 <= padding <= 16], and enciphers the padded text: the length of
    the ciphertext is [16 * (len M / 16 + 1)], a positive multiple of the
    block size and greater than [len M]; a message whose length is a
    multiple of 16, the empty one among them, gains a whole block. *)
Theorem C10_padding_and_length (rnd : Rand) (M key c iv : list byte) (rnd' : Rand) :
  Client.encryptAES rnd M key = (Ok (c, iv), rnd') ->
  let padding := Client.padding_of M in
  let padded := M ++ repeat (byte_of_Z padding) (Z.to_nat padding) in
  (exists block, AES.NewCipher key = Ok block /\
                 c = AES.CryptBlocks block iv (repeat x00 (List.length padded)) padded) /\
  1 <= padding <= 16 /\
  byte_to_Z (byte_of_Z padding) = padding /\
  len padded = len M + padding /\
  len c = 16 * (len M / 16 + 1) /\
  0 < len c /\ len c mod AES.BlockSize = 0 /\ len M < len c /\
  (len M mod 16 = 0 -> padding = 16 /\ len c = len M + 16).
Proof.
  intros Henc padding padded.
  destruct (encryptAES_ok _ _ _ _ _ _ Henc) as (block & Hk & Hr & Hiv & Hc).
  change (M ++ Client.padtext_of M) with padded in Hc.
  assert (Hlp : len padded = 16 * (len M / 16 + 1)) by apply len_padded.
  assert (Hlc : len c = 16 * (len M / 16 + 1)).
  { rewrite Hc. unfold AES.CryptBlocks.
    rewrite CryptBlocks_loop_len, len_repeat. exact Hlp. }
  pose proof (padding_of_range M) as Hp. fold padding in Hp.
  pose proof (len_nonneg M) as HM.
  pose proof (Z.div_mod (len M) 16 ltac:(lia)) as Hdm.
  pose proof (Z.mod_pos_bound (len M) 16 ltac:(lia)) as Hmb.
  split; [exists block; auto |].
  split; [exact Hp |].
  split; [apply padding_byte |].
  split; [unfold padded; rewrite len_app, len_repeat; lia |].
  split; [exact Hlc |]. rewrite Hlc. unfold AES.BlockSize.
  split; [lia |]. split; [rewrite Z.mul_comm; apply Z.mod_mul; lia |].
  split; [lia |].
  intros Hz. unfold padding, Client.padding_of, AES.BlockSize. lia.
Qed.

(** What is assumed of the AES block function for the round trip: under a
    key of an AES length it maps a 16-byte block to a 16-byte block, and
    [Decrypt] undoes [Encrypt]. *)
Hypothesis aes_block_length : forall key blk,
  AES.valid_key_size (len key) = true -> len blk = AES.BlockSize ->
  len (aes_Encrypt key blk) = AES.BlockSize.
Hypothesis aes_Decrypt_Encrypt : forall key blk,
  AES.valid_key_size (len key) = true -> len blk = AES.BlockSize ->
  aes_Decrypt key (aes_Encrypt key blk) = blk.

Lemma NewCipher_Encrypt_length (key : list byte) (b : AES.Block) :
  AES.NewCipher key = Ok b ->
  forall blk, len blk = AES.BlockSize -> len (AES.Encrypt b blk) = AES.BlockSize.
Proof.
  unfold AES.NewCipher. destruct (AES.valid_key_size (len key)) eqn:Hk; [| discriminate].
  intros Hb. inversion Hb; subst; clear Hb. cbn [AES.Encrypt]. auto.
Qed.

Lemma NewCipher_Decrypt_Encrypt (key : list byte) (b : AES.Block) :
  AES.NewCipher key = Ok b ->
  forall blk, len blk = AES.BlockSize -> AES.Decrypt b (AES.Encrypt b blk) = blk.
Proof.
  unfold AES.NewCipher. destruct (AES.valid_key_size (len key)) eqn:Hk; [| discriminate].
  intros Hb. inversion Hb; subst; clear Hb. cbn [AES.Encrypt AES.Decrypt]. auto.
Qed.

Section Blocks.
Variable b : AES.Block.
Hypothesis Encrypt_length : forall blk,
  len blk = AES.BlockSize -> len (AES.Encrypt b blk) = AES.BlockSize.
Hypothesis Decrypt_Encrypt : forall blk,
  len blk = AES.BlockSize -> AES.Decrypt b (AES.Encrypt b blk) = blk.

(** CBC decryption of what [CryptBlocks] left in the buffer is the source. *)
Lemma DecryptBlocks_CryptBlocks_loop (n : nat) :
  forall iv dst src k,
    len iv = AES.BlockSize -> len src = AES.BlockSize * k -> k <= Z.of_nat n ->
    len dst = len src ->
    AES.DecryptBlocks_loop b n iv (AES.CryptBlocks_loop b n iv dst src) = src.
Proof.
  unfold AES.BlockSize in *.
  induction n as [| n IH]; intros iv dst src k Hiv Hsrc Hk Hdst.
  - destruct src; [| unfold len in Hsrc; cbn [List.length] in Hsrc; lia].
    destruct dst; [reflexivity | unfold len in Hdst; cbn [List.length] in Hdst; lia].
  - cbn [AES.CryptBlocks_loop]. destruct src as [| a src'].
    { destruct dst; [reflexivity | unfold len in Hdst; cbn [List.length] in Hdst; lia]. }
    set (src := a :: src') in *.
    assert (Hk1 : 1 <= k) by (unfold len, src in Hsrc; cbn [List.length] in Hsrc; lia).
    set (blk := firstn (Z.to_nat AES.BlockSize) src).
    assert (Hblk : len blk = 16)
      by (unfold blk; rewrite len_firstn; unfold AES.BlockSize; lia).
    assert (Hd0 : len (firstn (Z.to_nat AES.BlockSize) dst) = 16)
      by (rewrite len_firstn; unfold AES.BlockSize; lia).
    assert (Hx : len (AES.XORBytes blk iv) = 16) by (rewrite len_XORBytes; lia).
    cbv zeta.
    rewrite (overwrite_all _ (AES.XORBytes blk iv)) by lia.
    rewrite (overwrite_all (AES.XORBytes blk iv))
      by (rewrite Encrypt_length; unfold AES.BlockSize; lia).
    set (c := AES.Encrypt b (AES.XORBytes blk iv)).
    assert (Hc : len c = 16) by (apply Encrypt_length; exact Hx).
    assert (Hc' : List.length c = Z.to_nat AES.BlockSize)
      by (unfold len, AES.BlockSize in *; lia).
    cbn [AES.DecryptBlocks_loop].
    destruct (c ++ AES.CryptBlocks_loop b n c (skipn (Z.to_nat AES.BlockSize) dst)
                     (skipn (Z.to_nat AES.BlockSize) src))
      as [| x rest] eqn:Hnil.
    { apply (f_equal (@List.length byte)) in Hnil. rewrite length_app in Hnil.
      cbn [List.length] in Hnil. unfold AES.BlockSize in *. lia. }
    rewrite <- Hnil. clear Hnil x rest.
    rewrite firstn_app_exact, skipn_app_exact by exact Hc'.
    unfold c at 1. rewrite Decrypt_Encrypt by exact Hx.
    rewrite XORBytes_cancel by lia.
    rewrite (IH _ _ _ (k - 1)).
    + unfold blk. apply firstn_skipn.
    + exact Hc.
    + rewrite len_skipn. unfold AES.BlockSize. lia.
    + lia.
    + rewrite !len_skipn. lia.
Qed.

End Blocks.

(** C7.  For every message, every 32-byte key and every stream of
    [rand.Reader] that can deliver the 16 bytes of the IV, [encryptAES]
    returns a ciphertext and a 16-byte IV, and deciphering that ciphertext
    in CBC mode with the same key and IV and stripping the padding gives
    the message back. *)
Theorem C7_roundtrip (rnd : Rand) (M key : list byte) :
  len key = 32 -> AES.BlockSize <= len rnd ->
  exists c iv rnd',
    Client.encryptAES rnd M key = (Ok (c, iv), rnd') /\
    len iv = AES.BlockSize /\
    Receiver.decryptAES c key iv = Some M.
Proof.
  intros Hkey Hrnd.
  destruct (Client.encryptAES rnd M key) as [[[c iv] | e] rnd'] eqn:Henc.
  - exists c, iv, rnd'.
    destruct (encryptAES_ok _ _ _ _ _ _ Henc) as (block & Hk & Hr & Hiv & Hc).
    cbv zeta in Hc.
    pose proof (NewCipher_Encrypt_length key block Hk) as Hlen.
    pose proof (NewCipher_Decrypt_Encrypt key block Hk) as Hinv.
    split; [reflexivity |]. split; [exact Hiv |].
    unfold Receiver.decryptAES. rewrite Hk.
    assert (Hl : List.length c = List.length (M ++ Client.padtext_of M)).
    { apply Nat2Z.inj. fold (len c). fold (len (M ++ Client.padtext_of M)).
      rewrite Hc. unfold AES.CryptBlocks.
      rewrite CryptBlocks_loop_len, len_repeat. reflexivity. }
    unfold AES.DecryptBlocks. rewrite Hl, Hc. unfold AES.CryptBlocks.
    rewrite (DecryptBlocks_CryptBlocks_loop block Hlen Hinv _ iv _ _ (len M / 16 + 1)).
    + apply strip_padding_padded.
    + exact Hiv.
    + rewrite len_padded. reflexivity.
    + fold (len (M ++ Client.padtext_of M)). rewrite len_padded.
      pose proof (Z.div_pos (len M) 16 (len_nonneg M) ltac:(lia)). lia.
    + rewrite len_repeat. reflexivity.
  - exfalso. unfold Client.encryptAES, AES.NewCipher, ReadFull in Henc.
    rewrite Hkey in Henc. cbn [AES.valid_key_size Z.eqb Pos.eqb orb] in Henc.
    destruct (Z.leb_spec AES.BlockSize (len rnd)); [discriminate | lia].
Qed.

End Cipher.

(** ** The key servers *)

(** C2, as amended.  The [key_size] of the ML-KEM server's response is the
    size in bytes of the public key it accompanies, the length of the
    decoded [public_key] payload.  The [key_size] of the RSA server's
    response is the constant 2048, the modulus length in bits asked of the
    key generation, whatever the length of the encoded key is. *)
Theorem C2_key_size `{Primitives}
    (Method1 Method2 : string) (rnd1 rnd2 : Rand) (d1 d2 : Duration)
    (m1 m2 m1' m2' : ServerMetrics)
    (r1 : MLKEMServer.PublicKeyResponse) (r2 : RSAServer.PublicKeyResponse) :
  MLKEMServer.getPublicKeyHandler Method1 rnd1 d1 m1 = (m1', JSONReply r1) ->
  RSAServer.getPublicKeyHandler Method2 rnd2 d2 m2 = (m2', JSONReply r2) ->
  payload_size (MLKEMServer.PublicKey r1) = Some (MLKEMServer.KeySize r1) /\
  RSAServer.KeySize r2 = 2048 /\
  (exists publicKey rnd' pubKeyBytes,
     rsa_GenerateKey rnd2 2048 = (Ok publicKey, rnd') /\
     MarshalPKIXPublicKey publicKey = Ok pubKeyBytes /\
     payload_size (RSAServer.PublicKey r2) = Some (len pubKeyBytes)).
Proof.
  intros H1 H2. split.
  - unfold MLKEMServer.getPublicKeyHandler in H1.
    destruct (negb (Method1 =? MethodGet)%string); [discriminate |].
    destruct (kyber768_GenerateKeyPair rnd1) as [[k | e] rnd']; [| discriminate].
    cbn [MLKEMServer.MarshalBinary] in H1. inversion H1; subst; clear H1.
    cbn [MLKEMServer.PublicKey MLKEMServer.KeySize].
    unfold payload_size. rewrite DecodeString_EncodeToString. reflexivity.
  - unfold RSAServer.getPublicKeyHandler in H2.
    destruct (negb (Method2 =? MethodGet)%string); [discriminate |].
    destruct (rsa_GenerateKey rnd2 2048) as [[k | e] rnd'] eqn:Hg; [| discriminate].
    destruct (MarshalPKIXPublicKey k) as [bs | e] eqn:Hm; [| discriminate].
    inversion H2; subst; clear H2.
    cbn [RSAServer.PublicKey RSAServer.KeySize]. split; [reflexivity |].
    exists k, rnd', bs. repeat split; auto.
    unfold payload_size. rewrite DecodeString_EncodeToString. reflexivity.
Qed.

(** ** The DER of a 2048-bit RSA key *)

Lemma length_be_bytes (n : nat) (z : Z) : List.length (DER.be_bytes n z) = n.
Proof.
  revert z. induction n as [| n IH]; intros z; cbn [DER.be_bytes]; [reflexivity |].
  rewrite length_app, IH. cbn. lia.
Qed.

Lemma len_tlv (tag : byte) (content : list byte) :
  len (DER.tlv tag content) = 1 + len (DER.length_bytes (len content)) + len content.
Proof. unfold DER.tlv. rewrite len_cons, len_app. lia. Qed.

(** Every RSA key with a 2048-bit modulus and the exponent 65537, which
    are the keys [rsa.GenerateKey(rand.Reader, 2048)] makes, has a DER
    encoding of 294 bytes. *)
Lemma MarshalPKIXPublicKey_2048 (n : Z) :
  2 ^ 2047 <= n < 2 ^ 2048 ->
  len (DER.MarshalPKIXPublicKey {| N := n; E := 65537 |}) = 294.
Proof.
  intros Hn.
  assert (Hlog : Z.log2 n = 2047).
  { apply Z.log2_unique; [lia |]. change (Z.succ 2047) with 2048. exact Hn. }
  assert (Hsize : DER.int_size n = 257%nat).
  { unfold DER.int_size. destruct (Z.eqb_spec n 0) as [-> | _].
    - exfalso. assert (0 < 2 ^ 2047) by (apply Z.pow_pos_nonneg; lia). lia.
    - rewrite Hlog. reflexivity. }
  assert (Hint : len (DER.integer n) = 261).
  { unfold DER.integer. rewrite len_tlv. unfold len at 2 3.
    rewrite length_be_bytes, Hsize. reflexivity. }
  assert (Hkey : len (DER.sequence (DER.integer n ++ DER.integer 65537)) = 270).
  { unfold DER.sequence. rewrite len_tlv, len_app, Hint. reflexivity. }
  assert (Hbits : len (DER.bit_string (DER.sequence (DER.integer n ++ DER.integer 65537))) = 275).
  { unfold DER.bit_string. rewrite len_tlv, (len_cons x00), Hkey. reflexivity. }
  unfold DER.MarshalPKIXPublicKey. cbn [N E].
  unfold DER.sequence at 1. rewrite len_tlv, len_app, Hbits. reflexivity.
Qed.

(** With the DER encoding for [x509.MarshalPKIXPublicKey] and a key
    generation that returns 2048-bit moduli with the exponent 65537, every
    response of the RSA server declares 2048 and carries 294 bytes. *)
Lemma RSAServer_key_size_vs_payload `{Primitives}
    (Method : string) (rnd : Rand) (d : Duration) (m m' : ServerMetrics)
    (r : RSAServer.PublicKeyResponse) :
  (forall k, MarshalPKIXPublicKey k = Ok (DER.MarshalPKIXPublicKey k)) ->
  (forall rnd0 k rnd1, rsa_GenerateKey rnd0 2048 = (Ok k, rnd1) ->
                       2 ^ 2047 <= N k < 2 ^ 2048 /\ E k = 65537) ->
  RSAServer.getPublicKeyHandler Method rnd d m = (m', JSONReply r) ->
  RSAServer.KeySize r = 2048 /\ payload_size (RSAServer.PublicKey r) = Some 294.
Proof.
  intros Hmarshal Hgen Hreply.
  unfold RSAServer.getPublicKeyHandler in Hreply.
  destruct (negb (Method =? MethodGet)%string); [discriminate |].
  destruct (rsa_GenerateKey rnd 2048) as [[k | e] rnd'] eqn:Hg; [| discriminate].
  pose proof (Hmarshal k) as Hm.
  destruct (MarshalPKIXPublicKey k) as [bs | e]; [| discriminate].
  assert (Hbs : bs = DER.MarshalPKIXPublicKey k) by congruence.
  assert (Hr : r = {| RSAServer.PublicKey := Base64.EncodeToString bs;
                      RSAServer.KeySize := 2048 |}) by congruence.
  rewrite Hr. cbn [RSAServer.PublicKey RSAServer.KeySize]. split; [reflexivity |].
  unfold payload_size. rewrite DecodeString_EncodeToString, Hbs.
  destruct (Hgen _ _ _ Hg) as [Hn He]. destruct k as [n e]. cbn [N E] in Hn, He.
  rewrite He, MarshalPKIXPublicKey_2048 by exact Hn. reflexivity.
Qed.

(** ** The library models on known values *)

(** The test vectors of RFC 4648, section 10. *)
Example Base64_rfc4648 :
  map (fun s => Base64.EncodeToString (list_byte_of_string s))
      [""; "f"; "fo"; "foo"; "foob"; "fooba"; "foobar"]%string
  = [""; "Zg=="; "Zm8="; "Zm9v"; "Zm9vYg=="; "Zm9vYmE="; "Zm9vYmFy"]%string /\
  map Base64.DecodeString
      [""; "Zg=="; "Zm8="; "Zm9v"; "Zm9vYg=="; "Zm9vYmE="; "Zm9vYmFy"]%string
  = map (fun s => Ok (list_byte_of_string s))
      [""; "f"; "fo"; "foo"; "foob"; "fooba"; "foobar"]%string.
Proof. split; reflexivity. Qed.

(** Line breaks are skipped; missing, misplaced or trailing padding and
    bytes outside the alphabet are corrupt input. *)
Example Base64_corrupt_input :
  Base64.DecodeString (String "Z" (String "m" (String "010" (String "9"
                        (String "013" (String "v" EmptyString))))))
    = Ok (list_byte_of_string "foo") /\
  map Base64.DecodeString
      ["Zg"; "Zg="; "Z==="; "Zg=a"; "Zg==Zg=="; "Zm9v="; "Zm9*"; "Zm 9v"]%string
  = repeat (Err Base64DecodeError) 8.
Proof. split; reflexivity. Qed.

(** 1.5 s, 100 ms and the largest [Duration]. *)
Example Seconds_values :
  Seconds (1500 * Millisecond) = div (of_int 3) (of_int 2) /\
  Seconds (100 * Millisecond) = div (of_int 1) (of_int 10) /\
  Seconds (-1) = S754_finite true 4835703278458517 (-82) /\
  Seconds (2 ^ 63 - 1) = S754_finite false 4835703278458517 (-19).
Proof. repeat split; reflexivity. Qed.

(** The 33 bytes before the modulus in the DER of every 2048-bit RSA key. *)
Example DER_prefix :
  firstn 33 (DER.MarshalPKIXPublicKey {| N := 2 ^ 2047 + 1; E := 65537 |})
  = [x30; x82; x01; x22;
     x30; x0d; x06; x09; x2a; x86; x48; x86; xf7; x0d; x01; x01; x01; x05; x00;
     x03; x82; x01; x0f; x00;
     x30; x82; x01; x0a;
     x02; x82; x01; x01; x00].
Proof. vm_compute. reflexivity. Qed.

(** ** More of the client: the tick as a whole *)

Section TickMore.
Context `{Primitives}.
Import Client.

Lemma tick_encryptionCounter (inp : TickInput) (st : State) :
  encryptionCounter (tick_state inp st) = (encryptionCounter st + 1) mod 2 ^ 64 /\
  counter (tick_state inp st) = wrap64 (counter st + 1).
Proof.
  pose proof (tick_split inp st) as Ht.
  destruct (tick_outcome inp st) as [s | step e].
  - destruct (tick_done _ _ _ _ Ht) as ((_ & _ & _ & Hn & Hc) & _). auto.
  - destruct (tick_aborted _ _ _ _ _ Ht) as [(_ & _ & _ & Hn & Hc) _]. auto.
Qed.

Lemma run_encryptionCounter (inps : list TickInput) :
  forall st,
    0 <= encryptionCounter st < 2 ^ 64 ->
    encryptionCounter (run inps st) = (encryptionCounter st + len inps) mod 2 ^ 64.
Proof.
  induction inps as [| inp rest IH]; intros st Hst.
  - cbn [run]. change (len (@nil TickInput)) with 0.
    rewrite Z.add_0_r, Z.mod_small by exact Hst. reflexivity.
  - cbn [run]. destruct (tick_encryptionCounter inp st) as [Hn _].
    rewrite IH by (rewrite Hn; apply Z.mod_pos_bound; lia).
    rewrite Hn, Zplus_mod_idemp_l, len_cons. f_equal. lia.
Qed.

(** X1.  The operations counter counts the ticks that were started, not the
    ones that completed: after any run of fewer than [2 ^ 63] ticks from
    process start it is the number of ticks, the operation count of the
    averages is the number of completed ticks, and the two differ by the
    number of ticks that failed. *)
Theorem operations_counter_counts_attempts (inps : list TickInput) :
  len inps < 2 ^ 63 ->
  let st := run inps init in
  encryptionCounter st = len inps /\
  operationCount st = len (completed_ticks inps init) /\
  0 <= operationCount st <= encryptionCounter st.
Proof.
  intros Hn st.
  pose proof (len_nonneg inps) as H0.
  pose proof (len_completed_ticks inps init) as Hc.
  pose proof (len_nonneg (completed_ticks inps init)) as Hp.
  assert (He : encryptionCounter st = len inps).
  { unfold st. rewrite run_encryptionCounter by (cbn; lia).
    cbn [init encryptionCounter]. rewrite Z.add_0_l. apply Z.mod_small. lia. }
  destruct (run_stats inps init) as (Ho & _); [cbn; lia | cbn; lia |].
  cbn [init operationCount] in Ho. fold st in Ho.
  rewrite He, Ho. repeat split; lia.
Qed.

(** What the calls of a completed tick returned. *)
Lemma calls_done (inp : TickInput) (msg : string) (s : Summary) :
  calls inp msg = Done s ->
  exists rsaPublicKey mlkemPublicKey rnd2 rnd3 rnd4 rnd5 sharedSecret,
    fetchPublicKey (http_Get inp) rsa_url = Ok (rsaPublicKey, rsaPubKeyBytes s) /\
    fetchMLKEMPublicKey (http_Get inp) mlkem_url = Ok (mlkemPublicKey, mlkemPubKeyBytes s) /\
    ReadFull (rand_Reader inp) 32 = (Ok (aesKey s), rnd2) /\
    encryptAES rnd2 (list_byte_of_string msg) (aesKey s)
      = (Ok (encryptedMessage s, iv s), rnd3) /\
    encryptRSA rnd3 rsaPublicKey (aesKey s) = (Ok (rsaEncryptedAESKey s), rnd4) /\
    encryptMLKEM rnd4 mlkemPublicKey (aesKey s)
      = (Ok (mlkemCiphertext s, sharedSecret), rnd5) /\
    message s = msg.
Proof.
  unfold calls.
  destruct (fetchPublicKey (http_Get inp) rsa_url) as [[k1 b1] | e] eqn:E1;
    [| discriminate].
  destruct (fetchMLKEMPublicKey (http_Get inp) mlkem_url) as [[k2 b2] | e] eqn:E2;
    [| discriminate].
  destruct (ReadFull (rand_Reader inp) 32) as [[key | e] rnd2] eqn:E3; [| discriminate].
  destruct (encryptAES rnd2 (list_byte_of_string msg) key) as [[[c v] | e] rnd3] eqn:E4;
    [| discriminate].
  destruct (encryptRSA rnd3 k1 key) as [[w | e] rnd4] eqn:E5; [| discriminate].
  destruct (encryptMLKEM rnd4 k2 key) as [[[ct ss] | e] rnd5] eqn:E6; [| discriminate].
  intros Hs. assert (Hs' : s = {| message := msg; rsaPubKeyBytes := b1;
      mlkemPubKeyBytes := b2; aesKey := key; encryptedMessage := c; iv := v;
      rsaEncryptedAESKey := w; mlkemCiphertext := ct |}) by congruence.
  rewrite Hs'. cbn [message rsaPubKeyBytes mlkemPubKeyBytes aesKey encryptedMessage
                    iv rsaEncryptedAESKey mlkemCiphertext].
  exists k1, k2, rnd2, rnd3, rnd4, rnd5, ss. repeat split; assumption || reflexivity.
Qed.

Lemma ReadFull_inv (rnd : Rand) (n : Z) (bs : list byte) (rnd' : Rand) :
  ReadFull rnd n = (Ok bs, rnd') ->
  n <= len rnd /\ bs = firstn (Z.to_nat n) rnd /\ rnd' = skipn (Z.to_nat n) rnd.
Proof.
  unfold ReadFull. destruct (Z.leb_spec n (len rnd)); [| discriminate].
  intros Hr. assert (bs = firstn (Z.to_nat n) rnd) by congruence.
  assert (rnd' = skipn (Z.to_nat n) rnd) by congruence. auto.
Qed.

Lemma ReadFull_error (rnd : Rand) (n : Z) (e : Error) (rnd' : Rand) :
  ReadFull rnd n = (Err e, rnd') -> e = RandReadError /\ len rnd < n.
Proof.
  unfold ReadFull. destruct (Z.leb_spec n (len rnd)); [discriminate |].
  intros Hr. split; [congruence | assumption].
Qed.

(** X2.  In a completed tick the AES key is the first 32 bytes [rand.Reader]
    delivers and the IV the next 16: the two never share a byte of the
    stream, and the tick took at least 48 bytes of it for them. *)
Theorem key_and_iv_of_the_stream (inp : TickInput) (st : State) (s : Summary) :
  tick_outcome inp st = Done s ->
  aesKey s = firstn 32 (rand_Reader inp) /\
  iv s = firstn 16 (skipn 32 (rand_Reader inp)) /\
  len (aesKey s) = 32 /\ len (iv s) = 16 /\
  48 <= len (rand_Reader inp).
Proof.
  rewrite tick_outcome_calls. intros Hc.
  destruct (calls_done _ _ _ Hc)
    as (k1 & k2 & rnd2 & rnd3 & rnd4 & rnd5 & ss & _ & _ & Hkey & Henc & _).
  destruct (ReadFull_inv _ _ _ _ Hkey) as (Hl & Hk & Hr2).
  destruct (encryptAES_ok _ _ _ _ _ _ Henc) as (block & _ & Hiv & Hliv & _).
  destruct (ReadFull_inv _ _ _ _ Hiv) as (Hl2 & Hv & _).
  change (Z.to_nat 32) with 32%nat in *. change (Z.to_nat AES.BlockSize) with 16%nat in *.
  subst rnd2. rewrite len_skipn in Hl2. unfold AES.BlockSize in *.
  split; [exact Hk |]. split; [exact Hv |].
  split; [rewrite Hk, len_firstn; lia |]. split; [exact Hliv | lia].
Qed.

Lemma NewCipher_32 (key : list byte) :
  len key = 32 -> exists block, AES.NewCipher key = Ok block.
Proof.
  intros Hk. unfold AES.NewCipher. rewrite Hk. cbn. eexists. reflexivity.
Qed.

(** X3.  The AES steps of a tick fail for want of randomness only: a tick left
    at the key generation or at the AES encryption has the read error of
    [rand.Reader], which then had fewer than 48 bytes to give (fewer than
    32 exactly when it is the key generation that failed).  The key-size
    error of [aes.NewCipher] does not occur in a tick. *)
Theorem AES_steps_fail_for_entropy_only
    (inp : TickInput) (st : State) (s : Step) (e : Error) :
  tick_outcome inp st = Aborted s e ->
  s = GenerateAESKey \/ s = EncryptAES ->
  e = RandReadError /\
  len (rand_Reader inp) < 48 /\
  (s = GenerateAESKey <-> len (rand_Reader inp) < 32).
Proof.
  rewrite tick_outcome_calls. unfold calls. intros Hc Hs.
  destruct (fetchPublicKey (http_Get inp) rsa_url) as [[k1 b1] | e1];
    [| destruct Hs; congruence].
  destruct (fetchMLKEMPublicKey (http_Get inp) mlkem_url) as [[k2 b2] | e2];
    [| destruct Hs; congruence].
  destruct (ReadFull (rand_Reader inp) 32) as [[key | e3] rnd2] eqn:E3.
  - destruct (ReadFull_inv _ _ _ _ E3) as (Hl & Hk & Hr2).
    assert (Hlk : len key = 32) by (rewrite Hk, len_firstn; lia).
    destruct (encryptAES rnd2 (list_byte_of_string (next_message st)) key)
      as [[[c v] | e4] rnd3] eqn:E4.
    + destruct (encryptRSA rnd3 k1 key) as [[w | e5] rnd4];
        [| destruct Hs; congruence].
      destruct (encryptMLKEM rnd4 k2 key) as [[[ct ss] | e6] rnd5];
        destruct Hs; congruence.
    + assert (Hse : s = EncryptAES /\ e = e4) by (split; congruence).
      destruct Hse as [-> ->].
      unfold encryptAES in E4. destruct (NewCipher_32 key Hlk) as [block Hb].
      rewrite Hb in E4.
      destruct (ReadFull rnd2 AES.BlockSize) as [[iv0 | e7] rnd'] eqn:E7;
        [discriminate |].
      destruct (ReadFull_error _ _ _ _ E7) as [He Hlt].
      assert (e4 = e7) by congruence. subst e4 e7 rnd2.
      rewrite len_skipn in Hlt. unfold AES.BlockSize in Hlt.
      change (Z.of_nat (Z.to_nat 32)) with 32 in Hlt.
      split; [reflexivity |]. split; [lia |].
      split; [discriminate | lia].
  - destruct (ReadFull_error _ _ _ _ E3) as [He Hlt].
    assert (Hse : s = GenerateAESKey /\ e = e3) by (split; congruence).
    destruct Hse as [-> ->]. split; [exact He |]. split; [lia |].
    split; [intros _; exact Hlt | reflexivity].
Qed.

Lemma next_message_fixed (st : State) :
  next_message st = nth 0 messages EmptyString.
Proof.
  unfold next_message. change (len messages) with 1. rewrite Z.rem_1_r. reflexivity.
Qed.

(** X4.  The outcome of a tick and the values it computes depend on what the
    world hands to it and on nothing a previous tick left behind: from any
    two states of the process the same input gives the same outcome. *)
Theorem tick_outcome_independent_of_state (inp : TickInput) (st st' : State) :
  tick_outcome inp st = tick_outcome inp st'.
Proof.
  rewrite !tick_outcome_calls, !next_message_fixed. reflexivity.
Qed.

(** X5.  The rotation over [messages] has one message to choose from: whatever
    the tick number, also after it has wrapped to a negative number, the
    index is 0 and in range.  Every completed tick has encrypted the same
    60 bytes into 64 bytes of ciphertext. *)
Theorem every_tick_encrypts_the_one_message
    (inp : TickInput) (st : State) (s : Summary) :
  tick_outcome inp st = Done s ->
  Z.rem (wrap64 (counter st + 1)) (len messages) = 0 /\
  message s = nth 0 messages EmptyString /\
  len (list_byte_of_string (message s)) = 60 /\
  len (encryptedMessage s) = 64.
Proof.
  rewrite tick_outcome_calls. intros Hc.
  destruct (calls_done _ _ _ Hc)
    as (k1 & k2 & rnd2 & rnd3 & rnd4 & rnd5 & ss & _ & _ & _ & Henc & _ & _ & Hm).
  rewrite next_message_fixed in Hm, Henc.
  split; [change (len messages) with 1; apply Z.rem_1_r |].
  split; [exact Hm |].
  assert (H60 : len (list_byte_of_string (nth 0 messages EmptyString)) = 60)
    by (vm_compute; reflexivity).
  split; [rewrite Hm; exact H60 |].
  destruct (encryptAES_ok _ _ _ _ _ _ Henc) as (block & _ & _ & _ & Hct).
  cbv zeta in Hct. rewrite Hct. unfold AES.CryptBlocks.
  rewrite CryptBlocks_loop_len, len_repeat.
  fold (len (list_byte_of_string (nth 0 messages EmptyString)
             ++ padtext_of (list_byte_of_string (nth 0 messages EmptyString)))).
  rewrite len_padded, H60. reflexivity.
Qed.

(** X6.  A completed tick overwrites the six measurement gauges with its own
    values: the lengths of the two public keys and of the two wrapped
    keys it handled and the two durations it measured, whatever the gauges
    showed before. *)
Theorem completed_tick_overwrites_measurements
    (inp : TickInput) (st : State) (s : Summary) :
  tick_outcome inp st = Done s ->
  let st' := tick_state inp st in
  gauges st' rsaPublicKeySize = of_int (len (rsaPubKeyBytes s)) /\
  gauges st' mlkemPublicKeySize = of_int (len (mlkemPubKeyBytes s)) /\
  gauges st' rsaEncryptedKeySize = of_int (len (rsaEncryptedAESKey s)) /\
  gauges st' mlkemEncryptedKeySize = of_int (len (mlkemCiphertext s)) /\
  gauges st' rsaEncryptionDuration = Seconds (rsaEncryptDuration inp) /\
  gauges st' mlkemEncapsulationDuration = Seconds (mlkemEncapsulateDuration inp).
Proof.
  intros Ho st'. pose proof (tick_split inp st) as Ht. rewrite Ho in Ht.
  destruct (tick_done _ _ _ _ Ht) as (_ & Hraw & _). exact Hraw.
Qed.

End TickMore.

(** ** More of the client: its functions one by one *)

Lemma decodeQuanta_whole_quanta (src : list ascii) :
  (List.length src mod 4 <> 0)%nat ->
  Base64.decodeQuanta src = Err Base64DecodeError.
Proof.
  induction src as [| a | a b | a b c | c0 c1 c2 c3 rest IH] using list_ind4;
    cbn [Base64.decodeQuanta]; try reflexivity.
  - cbn. intros Hn. contradiction.
  - intros Hn.
    assert (Hrest : (List.length rest mod 4 <> 0)%nat).
    { cbn [List.length] in Hn.
      replace (S (S (S (S (List.length rest))))) with (List.length rest + 1 * 4)%nat in Hn by lia.
      rewrite Nat.Div0.mod_add in Hn. exact Hn. }
    assert (Hne : Base64.no_more rest = false).
    { destruct rest; [cbn in Hrest; contradiction | reflexivity]. }
    cbv zeta. rewrite (IH Hrest), Hne, !andb_false_r. cbn [rbind].
    destruct ((Base64.decodeMap c0 =? 255) || (Base64.decodeMap c1 =? 255));
      [reflexivity |].
    destruct (Base64.decodeMap c2 =? 255); [reflexivity |].
    destruct (Base64.decodeMap c3 =? 255); reflexivity.
Qed.

Section Functions.
Context `{Primitives}.
Import Client.

(** [encryptAES] in its three cases.  A key of a length other than 16, 24
    or 32 is reported with that length before anything is read from
    [rand.Reader], which is handed back as it was; with a good key a
    stream of fewer than 16 bytes is the read error; otherwise the IV is
    the first 16 bytes of the stream and the stream goes on after them. *)
Lemma encryptAES_cases (rnd : Rand) (plaintext key : list byte) :
  encryptAES rnd plaintext key =
  if negb (AES.valid_key_size (len key)) then (Err (KeySizeError (len key)), rnd)
  else if len rnd <? 16 then (Err RandReadError, [])
  else
    let padded := plaintext ++ padtext_of plaintext in
    let iv := firstn 16 rnd in
    (Ok (AES.CryptBlocks {| AES.Encrypt := aes_Encrypt key; AES.Decrypt := aes_Decrypt key |}
           iv (repeat x00 (List.length padded)) padded, iv),
     skipn 16 rnd).
Proof.
  unfold encryptAES, AES.NewCipher, ReadFull, AES.BlockSize.
  destruct (AES.valid_key_size (len key)); cbn [negb]; [| reflexivity].
  destruct (Z.leb_spec 16 (len rnd)) as [Hle | Hlt].
  - destruct (Z.ltb_spec (len rnd) 16); [lia | reflexivity].
  - destruct (Z.ltb_spec (len rnd) 16); [reflexivity | lia].
Qed.

(** X7.  [encryptAES] succeeds exactly when the key has 16, 24 or 32 bytes
    and [rand.Reader] still gives 16 bytes, whatever the plaintext, the
    empty one too.  It then takes from the stream the 16 bytes of the IV
    and no more, and the ciphertext is never empty.  A call refused for
    its key has read nothing from the stream. *)
Theorem encryptAES_succeeds_exactly_when (rnd : Rand) (plaintext key : list byte) :
  (is_ok (fst (encryptAES rnd plaintext key))
     = AES.valid_key_size (len key) && (16 <=? len rnd)) /\
  (forall c iv rnd',
     encryptAES rnd plaintext key = (Ok (c, iv), rnd') ->
     rnd = iv ++ rnd' /\ len iv = 16 /\ 16 <= len c) /\
  (forall n rnd',
     encryptAES rnd plaintext key = (Err (KeySizeError n), rnd') ->
     n = len key /\ rnd' = rnd /\ AES.valid_key_size (len key) = false).
Proof.
  rewrite encryptAES_cases.
  destruct (AES.valid_key_size (len key)) eqn:Hk; cbn [negb andb].
  - destruct (Z.ltb_spec (len rnd) 16) as [Hlt | Hge].
    + split; [cbn; symmetry; apply Z.leb_gt; exact Hlt |].
      split; intros; discriminate.
    + cbv zeta. split; [cbn; symmetry; apply Z.leb_le; exact Hge |].
      split; [| intros; discriminate].
      intros c iv rnd' He.
      assert (Hiv : iv = firstn 16 rnd) by congruence.
      assert (Hr : rnd' = skipn 16 rnd) by congruence.
      assert (Hc : c = AES.CryptBlocks
                         {| AES.Encrypt := aes_Encrypt key;
                            AES.Decrypt := aes_Decrypt key |}
                         (firstn 16 rnd)
                         (repeat x00
                            (List.length (plaintext ++ padtext_of plaintext)))
                         (plaintext ++ padtext_of plaintext)) by congruence.
      split; [rewrite Hiv, Hr; symmetry; apply firstn_skipn |].
      split; [rewrite Hiv, len_firstn; [reflexivity | change (Z.of_nat 16) with 16; lia] |].
      rewrite Hc. unfold AES.CryptBlocks. rewrite CryptBlocks_loop_len, len_repeat.
      fold (len (plaintext ++ padtext_of plaintext)). rewrite len_padded.
      pose proof (len_nonneg plaintext). unfold AES.BlockSize.
      Z.to_euclidean_division_equations. lia.
  - split; [reflexivity |]. split; [intros; discriminate |].
    intros n rnd' He.
    assert (n = len key) by congruence. assert (rnd' = rnd) by congruence. auto.
Qed.


Lemma fetch_body (get : string -> HTTPResult) (url : string) (p : PublicKeyJSON) :
  get url = Response StatusOK (JSON p) ->
  fetchPublicKey get url
    = match Base64.DecodeString (public_key p) with
      | Err _ => Err Base64DecodeError
      | Ok pubKeyBytes =>
          match ParsePKIXPublicKey pubKeyBytes with
          | Err _ => Err KeyParseError
          | Ok (PKIX_RSA publicKey) => Ok (publicKey, pubKeyBytes)
          | Ok PKIX_other => Err KeyTypeError
          end
      end /\
  fetchMLKEMPublicKey get url
    = match Base64.DecodeString (public_key p) with
      | Err _ => Err Base64DecodeError
      | Ok pubKeyBytes =>
          match UnmarshalBinaryPublicKey pubKeyBytes with
          | Err _ => Err KeyParseError
          | Ok (KEM_kyber768 mlkemPublicKey) => Ok (mlkemPublicKey, pubKeyBytes)
          | Ok KEM_other => Err KeyTypeError
          end
      end.
Proof.
  intros Hget. unfold fetchPublicKey, fetchMLKEMPublicKey. rewrite Hget.
  split; reflexivity.
Qed.


(** X10.  A payload in another base64 dialect is refused.  When [public_key]
    holds a byte that is neither in the standard alphabet nor [=] nor a
    line break (the [-] and [_] of the URL-safe alphabet are such bytes),
    or when, the line breaks left out, its length is not a multiple of
    four (as without padding), both fetches return the base64 error. *)
Theorem fetch_refuses_other_base64
    (get : string -> HTTPResult) (url : string) (p : PublicKeyJSON) :
  get url = Response StatusOK (JSON p) ->
  (exists c, In c (list_ascii_of_string (public_key p)) /\
             Base64.decodeMap c = 255 /\
             Base64.is_pad c = false /\ Base64.is_newline c = false)
  \/ (List.length (filter (fun c => negb (Base64.is_newline c))
                          (list_ascii_of_string (public_key p))) mod 4 <> 0)%nat ->
  fetchPublicKey get url = Err Base64DecodeError /\
  fetchMLKEMPublicKey get url = Err Base64DecodeError /\
  Base64.decodeMap "-" = 255 /\ Base64.decodeMap "_" = 255.
Proof.
  intros Hget Hbad.
  assert (Hdec : Base64.DecodeString (public_key p) = Err Base64DecodeError).
  { destruct Hbad as [(c & Hin & Hc & Hp & Hn) | Hlen].
    - exact (DecodeString_foreign_char _ c Hin Hc Hp Hn).
    - unfold Base64.DecodeString. apply decodeQuanta_whole_quanta. exact Hlen. }
  destruct (fetch_body get url p Hget) as [-> ->]. rewrite Hdec.
  repeat split; reflexivity.
Qed.

(** X11.  The client reads what the ML-KEM server sent.  Whatever the handler
    answers a request with, a fetch of that answer gives: for the 405 and
    the 500, the status error with that code; for the JSON response, the
    packed bytes of the key the server generated, if the Kyber parser
    accepts them, and their number is the [key_size] the response
    declares. *)
Theorem client_reads_the_MLKEM_reply
    (Method : string) (rnd : Rand) (d : Duration) (m m' : ServerMetrics)
    (reply : Reply MLKEMServer.PublicKeyResponse) (url : string) :
  MLKEMServer.getPublicKeyHandler Method rnd d m = (m', reply) ->
  let get := fun _ : string => Demo.serve MLKEMServer.to_JSON reply in
  match reply with
  | HTTPError code =>
      (code = 405 \/ code = 500) /\
      fetchMLKEMPublicKey get url = Err (HTTPStatusError code)
  | JSONReply r =>
      exists k rnd',
        kyber768_GenerateKeyPair rnd = (Ok k, rnd') /\
        MLKEMServer.KeySize r = len (packed k) /\
        fetchMLKEMPublicKey get url
          = match UnmarshalBinaryPublicKey (packed k) with
            | Err _ => Err KeyParseError
            | Ok (KEM_kyber768 mlkemPublicKey) => Ok (mlkemPublicKey, packed k)
            | Ok KEM_other => Err KeyTypeError
            end
  end.
Proof.
  intros Hh get. unfold MLKEMServer.getPublicKeyHandler in Hh.
  destruct (negb (Method =? MethodGet)%string).
  { assert (reply = HTTPError StatusMethodNotAllowed) as -> by congruence.
    split; [left; reflexivity | reflexivity]. }
  destruct (kyber768_GenerateKeyPair rnd) as [[k | e] rnd'] eqn:Hg.
  - cbn [MLKEMServer.MarshalBinary] in Hh.
    assert (Hr : reply = JSONReply {|
        MLKEMServer.PublicKey := Base64.EncodeToString (packed k);
        MLKEMServer.Algorithm := "ML-KEM-768 (Kyber-768)";
        MLKEMServer.KeySize := len (packed k) |}) by congruence.
    subst reply. exists k, rnd'. split; [reflexivity |]. split; [reflexivity |].
    unfold fetchMLKEMPublicKey, get, Demo.serve, MLKEMServer.to_JSON.
    cbn [negb Z.eqb StatusOK Pos.eqb public_key MLKEMServer.PublicKey].
    rewrite DecodeString_EncodeToString. reflexivity.
  - assert (reply = HTTPError StatusInternalServerError) as -> by congruence.
    split; [right; reflexivity | reflexivity].
Qed.

(** X12.  The client reads what the RSA server sent: for the 405 and the 500 the
    status error with that code; for the JSON response the bytes the
    server marshalled its key to, if the X.509 parser accepts them as an
    RSA key.  The client has their length for the size of the key; the
    [key_size] of the response, 2048, plays no part. *)
Theorem client_reads_the_RSA_reply
    (Method : string) (rnd : Rand) (d : Duration) (m m' : ServerMetrics)
    (reply : Reply RSAServer.PublicKeyResponse) (url : string) :
  RSAServer.getPublicKeyHandler Method rnd d m = (m', reply) ->
  let get := fun _ : string => Demo.serve RSAServer.to_JSON reply in
  match reply with
  | HTTPError code =>
      (code = 405 \/ code = 500) /\
      fetchPublicKey get url = Err (HTTPStatusError code)
  | JSONReply r =>
      exists k rnd' pubKeyBytes,
        rsa_GenerateKey rnd 2048 = (Ok k, rnd') /\
        MarshalPKIXPublicKey k = Ok pubKeyBytes /\
        RSAServer.KeySize r = 2048 /\
        fetchPublicKey get url
          = match ParsePKIXPublicKey pubKeyBytes with
            | Err _ => Err KeyParseError
            | Ok (PKIX_RSA publicKey) => Ok (publicKey, pubKeyBytes)
            | Ok PKIX_other => Err KeyTypeError
            end
  end.
Proof.
  intros Hh get. unfold RSAServer.getPublicKeyHandler in Hh.
  destruct (negb (Method =? MethodGet)%string).
  { assert (reply = HTTPError StatusMethodNotAllowed) as -> by congruence.
    split; [left; reflexivity | reflexivity]. }
  destruct (rsa_GenerateKey rnd 2048) as [[k | e] rnd'] eqn:Hg.
  - destruct (MarshalPKIXPublicKey k) as [bs | e] eqn:Hm.
    + assert (Hr : reply = JSONReply {|
          RSAServer.PublicKey := Base64.EncodeToString bs;
          RSAServer.KeySize := 2048 |}) by congruence.
      subst reply. exists k, rnd', bs.
      split; [reflexivity |]. split; [exact Hm |]. split; [reflexivity |].
      unfold fetchPublicKey, get, Demo.serve, RSAServer.to_JSON.
      cbn [negb Z.eqb StatusOK Pos.eqb public_key RSAServer.PublicKey].
      rewrite DecodeString_EncodeToString. reflexivity.
    + assert (reply = HTTPError StatusInternalServerError) as -> by congruence.
      split; [right; reflexivity | reflexivity].
  - assert (reply = HTTPError StatusInternalServerError) as -> by congruence.
    split; [right; reflexivity | reflexivity].
Qed.

End Functions.

(** ** More of the servers: the middleware, the index page, runs of requests *)

Lemma mod_succ_add (a n : Z) :
  ((a + 1) mod 2 ^ 64 + n) mod 2 ^ 64 = (a + (1 + n)) mod 2 ^ 64.
Proof. rewrite Zplus_mod_idemp_l. f_equal. lia. Qed.

Lemma count_where_cons {A} (f : A -> bool) (a : A) (l : list A) :
  count_where f (a :: l) = (if f a then 1 else 0) + count_where f l.
Proof.
  unfold count_where. cbn [filter]. destruct (f a); [apply len_cons | lia].
Qed.

Lemma count_where_nonneg {A} (f : A -> bool) (l : list A) : 0 <= count_where f l.
Proof. apply len_nonneg. Qed.

Section Servers.
Context `{Primitives}.

(** *** The RSA server *)

Lemma RSA_serve_one (e : Endpoint) (r : Request)
    (h : RSAMain.HTTPMetrics) (m : ServerMetrics) :
  exists m' w,
    RSAMain.serve e r (h, m)
      = ((RSAMain.observe_duration (endpoint_label e) (Seconds (req_duration r))
            (RSAMain.inc_requests (endpoint_label e) (req_Method r) h), m'), w) /\
    publicKeyRequests m' = publicKeyRequests m /\
    match e with
    | IndexEndpoint => m' = m /\ w = HTMLPage RSAMain.index_html
    | PublicKeyEndpoint =>
        (m', w) = RSAMain.publicKeyHandler r m /\
        (req_Method r <> MethodGet -> m' = m /\ w = KeyReply (HTTPError 405))
    end.
Proof.
  destruct e; unfold RSAMain.serve, RSAMain.metricsMiddleware.
  - destruct (RSAMain.publicKeyHandler r m) as [m' w] eqn:Hh.
    exists m', w. split; [reflexivity |].
    unfold RSAMain.publicKeyHandler, RSAServer.getPublicKeyHandler in Hh.
    destruct (String.eqb_spec (req_Method r) MethodGet) as [Hget | Hne]; cbn [negb] in Hh.
    + split; [| split; [reflexivity | intros Hc; contradiction]].
      destruct (rsa_GenerateKey (req_rand r) 2048) as [[k | e] rnd'].
      * destruct (MarshalPKIXPublicKey k); cbv beta iota zeta in Hh;
          assert (m' = observe_generation (req_generation r) m) as -> by congruence;
          reflexivity.
      * cbv beta iota zeta in Hh. assert (m' = m) as -> by congruence. reflexivity.
    + cbv beta iota zeta in Hh.
      assert (m' = m /\ w = KeyReply (HTTPError StatusMethodNotAllowed)) as [-> ->]
        by (split; congruence).
      repeat split; reflexivity.
  - exists m, (HTMLPage RSAMain.index_html). repeat split; reflexivity.
Qed.

Lemma label_eqb (e e' : Endpoint) (r : Request) :
  String.eqb (endpoint_label e) (endpoint_label e') = to_endpoint e (e', r).
Proof. destruct e, e'; reflexivity. Qed.

(** X13.  The middleware of the RSA server accounts for every request it sees,
    whatever the handler does with it: after any requests, from process
    start, the counter of an endpoint and a method is the number of
    requests to that endpoint with that method (one answered 405 counts
    like any other), and the histogram of an endpoint holds one
    observation per request to it, the duration of each, the latest
    first. *)
Theorem RSA_middleware_accounts_for_every_request
    (reqs : list (Endpoint * Request)) (m : ServerMetrics)
    (e : Endpoint) (method : string) :
  let st := fst (RSAMain.serve_all reqs (RSAMain.no_requests, m)) in
  RSAMain.httpRequestsTotal (fst st) (endpoint_label e) method
    = count_where (fun x => to_endpoint e x && String.eqb (req_Method (snd x)) method) reqs
        mod 2 ^ 64 /\
  RSAMain.httpRequestDuration (fst st) (endpoint_label e)
    = rev (map duration_seconds (filter (to_endpoint e) reqs)).
Proof.
  set (f := fun x : Endpoint * Request =>
              to_endpoint e x && String.eqb (req_Method (snd x)) method).
  assert (Hgen : forall reqs h m,
    let st := fst (RSAMain.serve_all reqs (h, m)) in
    0 <= RSAMain.httpRequestsTotal h (endpoint_label e) method < 2 ^ 64 ->
    RSAMain.httpRequestsTotal (fst st) (endpoint_label e) method
      = (RSAMain.httpRequestsTotal h (endpoint_label e) method + count_where f reqs)
          mod 2 ^ 64 /\
    RSAMain.httpRequestDuration (fst st) (endpoint_label e)
      = rev (map duration_seconds (filter (to_endpoint e) reqs))
        ++ RSAMain.httpRequestDuration h (endpoint_label e)).
  { clear reqs m. induction reqs as [| [e' r] rest IH]; intros h m st Hr.
    - cbn. unfold count_where. cbn. rewrite Z.add_0_r, Z.mod_small by exact Hr. auto.
    - unfold st. cbn [RSAMain.serve_all].
      destruct (RSA_serve_one e' r h m) as (m' & w & -> & _).
      set (h' := RSAMain.observe_duration _ _ _).
      destruct (RSAMain.serve_all rest (h', m')) as [st'' ws] eqn:Hrest.
      cbn [fst].
      assert (Hh' : RSAMain.httpRequestsTotal h' (endpoint_label e) method
                    = if f (e', r)
                      then (RSAMain.httpRequestsTotal h (endpoint_label e) method + 1)
                             mod 2 ^ 64
                      else RSAMain.httpRequestsTotal h (endpoint_label e) method).
      { unfold h', f. cbn [RSAMain.observe_duration RSAMain.inc_requests
                            RSAMain.httpRequestsTotal snd].
        rewrite (label_eqb e e' r), (String.eqb_sym method). reflexivity. }
      assert (Hd' : RSAMain.httpRequestDuration h' (endpoint_label e)
                    = if to_endpoint e (e', r)
                      then Seconds (req_duration r)
                             :: RSAMain.httpRequestDuration h (endpoint_label e)
                      else RSAMain.httpRequestDuration h (endpoint_label e)).
      { unfold h'. cbn [RSAMain.observe_duration RSAMain.inc_requests
                        RSAMain.httpRequestDuration].
        rewrite (label_eqb e e' r). reflexivity. }
      specialize (IH h' m'). rewrite Hrest in IH. cbn [fst] in IH.
      destruct IH as [IHc IHd].
      { rewrite Hh'. destruct (f (e', r)); [apply Z.mod_pos_bound; lia | exact Hr]. }
      rewrite IHc, IHd, Hh', Hd', count_where_cons. cbn [filter].
      split.
      + destruct (f (e', r)); [apply mod_succ_add | f_equal; lia].
      + destruct (to_endpoint e (e', r)); [| reflexivity].
        cbn [map rev]. unfold duration_seconds at 2. cbn [snd].
        rewrite <- app_assoc. reflexivity. }
  intros st. destruct (Hgen reqs RSAMain.no_requests m) as [Hc Hd]; [cbn; lia |].
  fold st in Hc, Hd. cbn [RSAMain.no_requests RSAMain.httpRequestsTotal
                          RSAMain.httpRequestDuration] in Hc, Hd.
  rewrite Z.add_0_l in Hc. rewrite app_nil_r in Hd. auto.
Qed.

(** X14.  The RSA server never counts a key request.  Whatever requests it
    serves, to either endpoint and with any method, [publicKeyRequests]
    keeps the value it had: no handler increments it, and the index page,
    which shows the increment as text, is served to every method and
    changes no metric of the keys. *)
Theorem RSA_server_never_counts_key_requests
    (reqs : list (Endpoint * Request)) (st : RSAMain.HTTPMetrics * ServerMetrics) :
  publicKeyRequests (snd (fst (RSAMain.serve_all reqs st))) = publicKeyRequests (snd st) /\
  forall r, RSAMain.indexHandler r (snd st) = (snd st, HTMLPage RSAMain.index_html).
Proof.
  split; [| reflexivity].
  revert st. induction reqs as [| [e r] rest IH]; intros [h m]; [reflexivity |].
  cbn [RSAMain.serve_all].
  destruct (RSA_serve_one e r h m) as (m' & w & -> & Hp & _).
  specialize (IH (RSAMain.observe_duration (endpoint_label e) (Seconds (req_duration r))
                    (RSAMain.inc_requests (endpoint_label e) (req_Method r) h), m')).
  destruct (RSAMain.serve_all rest _) as [st'' ws]. cbn [fst snd] in *.
  rewrite IH. exact Hp.
Qed.

Lemma RSA_serve_generates (e : Endpoint) (r : Request)
    (h : RSAMain.HTTPMetrics) (m : ServerMetrics) :
  exists h' m' w,
    RSAMain.serve e r (h, m) = ((h', m'), w) /\
    m' = (if RSA_generates (e, r) then observe_generation (req_generation r) m else m) /\
    (is_json w = true -> RSA_generates (e, r) = true) /\
    forall h0 m0, snd (RSAMain.serve e r (h0, m0)) = w.
Proof.
  destruct e; unfold RSAMain.serve, RSAMain.metricsMiddleware, RSA_generates,
    key_request, is_get; cbn [to_endpoint fst snd andb].
  - unfold RSAMain.publicKeyHandler, RSAServer.getPublicKeyHandler.
    destruct (String.eqb (req_Method r) MethodGet); cbn [negb andb].
    + destruct (rsa_GenerateKey (req_rand r) 2048) as [[k | err] rnd']; cbn [fst is_ok].
      * destruct (MarshalPKIXPublicKey k); cbv beta iota zeta;
          do 3 eexists; (split; [reflexivity |]); split; try reflexivity;
          split; try reflexivity; cbn; congruence.
      * cbv beta iota zeta. do 3 eexists. split; [reflexivity |].
        split; [reflexivity |]. split; [cbn; congruence | reflexivity].
    + cbv beta iota zeta. do 3 eexists. split; [reflexivity |].
      split; [reflexivity |]. split; [cbn; congruence | reflexivity].
  - do 3 eexists. split; [reflexivity |]. split; [reflexivity |].
    split; [cbn; congruence | reflexivity].
Qed.

(** *** The ML-KEM server *)

Lemma MLKEM_serve_one (e : Endpoint) (r : Request)
    (h : MLKEMMain.HTTPMetrics) (m : ServerMetrics) :
  exists m' w,
    MLKEMMain.serve e r (h, m)
      = ((MLKEMMain.observe_duration (endpoint_label e) (Seconds (req_duration r)) h, m'),
         w) /\
    m' = (let m1 := if key_request (e, r) then count_request m else m in
          if MLKEM_generates (e, r) then observe_generation (req_generation r) m1 else m1) /\
    is_json w = MLKEM_generates (e, r) /\
    forall h0 m0, snd (MLKEMMain.serve e r (h0, m0)) = w.
Proof.
  destruct e; unfold MLKEMMain.serve, MLKEMMain.metricsMiddleware, MLKEM_generates,
    key_request, is_get; cbn [to_endpoint fst snd andb].
  - unfold MLKEMMain.publicKeyHandler, MLKEMServer.getPublicKeyHandler,
      MLKEMServer.MarshalBinary.
    destruct (String.eqb (req_Method r) MethodGet); cbn [negb andb].
    + destruct (kyber768_GenerateKeyPair (req_rand r)) as [[k | err] rnd']; cbn [fst is_ok];
        cbv beta iota zeta; do 2 eexists; repeat split; reflexivity.
    + cbv beta iota zeta. do 2 eexists. repeat split; reflexivity.
  - do 2 eexists. repeat split; reflexivity.
Qed.

(** X15.  The ML-KEM server counts every [GET] for a key, served or not.  After
    any requests, [publicKeyRequests] has grown (modulo [2^64]) by the
    number of [GET] requests to the key endpoint: one whose key generation
    fails and is answered 500 is counted, a request with another method,
    answered 405, and a request for the index page are not. *)
Theorem MLKEM_server_counts_every_key_request
    (reqs : list (Endpoint * Request)) (h : MLKEMMain.HTTPMetrics) (m : ServerMetrics)
    (Hrange : 0 <= publicKeyRequests m < 2 ^ 64) :
  publicKeyRequests (snd (fst (MLKEMMain.serve_all reqs (h, m))))
    = (publicKeyRequests m + count_where key_request reqs) mod 2 ^ 64.
Proof.
  revert h m Hrange. induction reqs as [| [e r] rest IH]; intros h m Hrange.
  - cbn. unfold count_where. cbn. rewrite Z.add_0_r, Z.mod_small by exact Hrange.
    reflexivity.
  - cbn [MLKEMMain.serve_all].
    destruct (MLKEM_serve_one e r h m) as (m' & w & -> & Hm & _).
    set (h' := MLKEMMain.observe_duration _ _ _).
    specialize (IH h' m').
    destruct (MLKEMMain.serve_all rest (h', m')) as [st'' ws]. cbn [fst snd] in *.
    assert (Hp : publicKeyRequests m'
                 = if key_request (e, r) then (publicKeyRequests m + 1) mod 2 ^ 64
                   else publicKeyRequests m).
    { rewrite Hm. cbv zeta.
      destruct (key_request (e, r)), (MLKEM_generates (e, r)); reflexivity. }
    rewrite IH, Hp, count_where_cons.
    + destruct (key_request (e, r)); [apply mod_succ_add | f_equal; lia].
    + rewrite Hp. destruct (key_request (e, r)); [apply Z.mod_pos_bound; lia | exact Hrange].
Qed.

(** X16.  The generation metrics of the ML-KEM server follow the keys it
    serves.  After any requests, the histogram [keyGenerationDuration] has
    gained one observation for each [GET] for a key whose generation
    succeeded, the generation time of each in seconds, the latest first;
    the gauge [keyGenerationTime] shows the latest of them, or its old
    value if there is none; and the replies that carry a key are as many
    as these observations. *)
Theorem MLKEM_generation_metrics
    (reqs : list (Endpoint * Request)) (h : MLKEMMain.HTTPMetrics) (m : ServerMetrics) :
  let out := MLKEMMain.serve_all reqs (h, m) in
  let observed := rev (map generation_seconds (filter MLKEM_generates reqs)) in
  keyGenerationDuration (snd (fst out)) = observed ++ keyGenerationDuration m /\
  keyGenerationTime (snd (fst out)) = hd (keyGenerationTime m) observed /\
  count_where is_json (snd out) = len observed.
Proof.
  cbv zeta. revert h m. induction reqs as [| [e r] rest IH]; intros h m.
  - cbn. auto.
  - cbn [MLKEMMain.serve_all].
    destruct (MLKEM_serve_one e r h m) as (m' & w & -> & Hm & Hw & _).
    set (h' := MLKEMMain.observe_duration _ _ _).
    specialize (IH h' m').
    destruct (MLKEMMain.serve_all rest (h', m')) as [st'' ws]. cbn [fst snd] in *.
    destruct IH as (IHd & IHt & IHj).
    rewrite IHd, IHt, count_where_cons, IHj, Hw. cbn [filter].
    destruct (MLKEM_generates (e, r)).
    + assert (Hd : keyGenerationDuration m'
                   = generation_seconds (e, r) :: keyGenerationDuration m)
        by (rewrite Hm; cbv zeta; destruct (key_request (e, r)); reflexivity).
      assert (Ht : keyGenerationTime m' = generation_seconds (e, r))
        by (rewrite Hm; cbv zeta; destruct (key_request (e, r)); reflexivity).
      rewrite Hd, Ht. cbn [map rev]. rewrite <- app_assoc. cbn [app].
      split; [reflexivity |]. split.
      * destruct (rev (map generation_seconds (filter MLKEM_generates rest)));
          reflexivity.
      * rewrite len_app. change (len [generation_seconds (e, r)]) with 1. lia.
    + assert (Hd : keyGenerationDuration m' = keyGenerationDuration m)
        by (rewrite Hm; cbv zeta; destruct (key_request (e, r)); reflexivity).
      assert (Ht : keyGenerationTime m' = keyGenerationTime m)
        by (rewrite Hm; cbv zeta; destruct (key_request (e, r)); reflexivity).
      rewrite Hd, Ht. repeat split; reflexivity || lia.
Qed.

(** X17.  The middleware of the ML-KEM server observes every request: after any
    requests, the histogram of an endpoint has gained one observation per
    request to it, with any method and whatever the handler answered, the
    duration of each in seconds, the latest first. *)
Theorem MLKEM_middleware_observes_every_request
    (reqs : list (Endpoint * Request)) (h : MLKEMMain.HTTPMetrics) (m : ServerMetrics)
    (e : Endpoint) :
  fst (fst (MLKEMMain.serve_all reqs (h, m))) (endpoint_label e)
    = rev (map duration_seconds (filter (to_endpoint e) reqs)) ++ h (endpoint_label e).
Proof.
  revert h m. induction reqs as [| [e' r] rest IH]; intros h m; [reflexivity |].
  cbn [MLKEMMain.serve_all].
  destruct (MLKEM_serve_one e' r h m) as (m' & w & -> & _).
  set (h' := MLKEMMain.observe_duration _ _ _).
  specialize (IH h' m').
  destruct (MLKEMMain.serve_all rest (h', m')) as [st'' ws]. cbn [fst snd] in *.
  rewrite IH. unfold h', MLKEMMain.observe_duration. rewrite (label_eqb e e' r).
  cbn [filter]. destruct (to_endpoint e (e', r)); [| reflexivity].
  cbn [map rev]. unfold duration_seconds at 2. cbn [snd].
  rewrite <- app_assoc. reflexivity.
Qed.

(** *** Both servers *)

(** X18.  The generation metrics of the RSA server follow the key pairs it
    generates, not the keys it serves.  After any requests, the histogram
    [keyGenerationDuration] has gained one observation for each [GET] for
    a key whose generation succeeded, the latest first, and the gauge
    [keyGenerationTime] shows the latest of them; a key that is generated
    and then fails to marshal is observed and answered 500, so the replies
    that carry a key are at most as many as the observations. *)
Theorem RSA_generation_metrics
    (reqs : list (Endpoint * Request)) (h : RSAMain.HTTPMetrics) (m : ServerMetrics) :
  let out := RSAMain.serve_all reqs (h, m) in
  let observed := rev (map generation_seconds (filter RSA_generates reqs)) in
  keyGenerationDuration (snd (fst out)) = observed ++ keyGenerationDuration m /\
  keyGenerationTime (snd (fst out)) = hd (keyGenerationTime m) observed /\
  count_where is_json (snd out) <= len observed.
Proof.
  cbv zeta. revert h m. induction reqs as [| [e r] rest IH]; intros h m.
  - cbn. unfold count_where, len. cbn. repeat split; reflexivity || lia.
  - cbn [RSAMain.serve_all].
    destruct (RSA_serve_generates e r h m) as (h' & m' & w & -> & Hm & Hw & _).
    specialize (IH h' m').
    destruct (RSAMain.serve_all rest (h', m')) as [st'' ws]. cbn [fst snd] in *.
    destruct IH as (IHd & IHt & IHj).
    rewrite IHd, IHt, count_where_cons. cbn [filter].
    destruct (RSA_generates (e, r)).
    + rewrite Hm. cbn [observe_generation keyGenerationDuration keyGenerationTime].
      cbn [map rev]. rewrite <- app_assoc. cbn [app].
      split; [reflexivity |]. split.
      * destruct (rev (map generation_seconds (filter RSA_generates rest)));
          reflexivity.
      * rewrite len_app. change (len [generation_seconds (e, r)]) with 1.
        destruct (is_json w); lia.
    + rewrite Hm. split; [reflexivity |]. split; [reflexivity |].
      destruct (is_json w); [| lia]. specialize (Hw eq_refl). discriminate.
Qed.

(** X19.  Neither server keeps anything between two replies: what a request is
    answered with depends on the request alone (its method and the key
    pair generated for it), not on the requests served before it or on a
    metric.  The replies of a run are the replies each request gets from a
    server in any state. *)
Theorem servers_answer_each_request_afresh
    (reqs : list (Endpoint * Request))
    (st st0 : RSAMain.HTTPMetrics * ServerMetrics)
    (st' st0' : MLKEMMain.HTTPMetrics * ServerMetrics) :
  snd (RSAMain.serve_all reqs st)
    = map (fun x => snd (RSAMain.serve (fst x) (snd x) st0)) reqs /\
  snd (MLKEMMain.serve_all reqs st')
    = map (fun x => snd (MLKEMMain.serve (fst x) (snd x) st0')) reqs.
Proof.
  split.
  - revert st. induction reqs as [| [e r] rest IH]; intros [h m]; [reflexivity |].
    cbn [RSAMain.serve_all map fst snd].
    destruct (RSA_serve_generates e r h m) as (h' & m' & w & -> & _ & _ & Hany).
    specialize (IH (h', m')). destruct (RSAMain.serve_all rest (h', m')) as [st'' ws].
    cbn [snd] in *. destruct st0 as [h0 m0]. rewrite Hany, IH. reflexivity.
  - revert st'. induction reqs as [| [e r] rest IH]; intros [h m]; [reflexivity |].
    cbn [MLKEMMain.serve_all map fst snd].
    destruct (MLKEM_serve_one e r h m) as (m' & w & -> & _ & _ & Hany).
    set (h' := MLKEMMain.observe_duration _ _ _).
    specialize (IH (h', m')). destruct (MLKEMMain.serve_all rest (h', m')) as [st'' ws].
    cbn [snd] in *. destruct st0' as [h0 m0]. rewrite Hany, IH. reflexivity.
Qed.

End Servers.
(** ** The summary a completed tick prints *)

Lemma substring_0_length (n : nat) (s : string) :
  String.length (String.substring 0 n s) = Nat.min n (String.length s).
Proof.
  revert n. induction s as [| c s IH]; intros [| n]; cbn; try reflexivity.
  rewrite IH. reflexivity.
Qed.

Lemma substring_0_prefix (n : nat) (s : string) :
  String.prefix (String.substring 0 n s) s = true.
Proof.
  revert n. induction s as [| c s IH]; intros [| n]; cbn; try reflexivity.
  destruct (Ascii.ascii_dec c c) as [_ | Hc]; [apply IH | contradiction].
Qed.

Lemma substring_0_all (n : nat) (s : string) :
  (String.length s <= n)%nat -> String.substring 0 n s = s.
Proof.
  revert n. induction s as [| c s IH]; intros [| n] Hn; cbn in *;
    try reflexivity; try lia.
  rewrite IH by lia. reflexivity.
Qed.

(** X20.  The message line of the summary never slices out of range.  For every
    message, of any length and the empty one too, [message[:min(len(message),
    30)]] is within bounds: the line shows the first 30 bytes of the
    message, or all of it when it has at most 30, and the three dots follow
    in both cases, also after a message shown in full. *)
Theorem summary_preview_never_panics (message : string) :
  exists head,
    Report.preview message = Some (head ++ "...")%string /\
    String.prefix head message = true /\
    String.length head = Nat.min (String.length message) 30 /\
    ((String.length message <= 30)%nat -> head = message).
Proof.
  unfold Report.preview, Report.slice_to, Report.min.
  set (n := String.length message).
  destruct (Z.ltb_spec (Z.of_nat n) 30) as [Hlt | Hge].
  - assert (Hb : (0 <=? Z.of_nat n) && (Z.of_nat n <=? Z.of_nat n) = true)
      by (apply andb_true_intro; split; apply Z.leb_le; lia).
    rewrite Hb, Nat2Z.id. exists (String.substring 0 n message).
    split; [reflexivity |]. split; [apply substring_0_prefix |].
    split; [rewrite substring_0_length; fold n; lia |].
    intros _. apply substring_0_all. unfold n. lia.
  - assert (Hb : (0 <=? 30) && (30 <=? Z.of_nat n) = true)
      by (apply andb_true_intro; split; apply Z.leb_le; lia).
    rewrite Hb. change (Z.to_nat 30) with 30%nat.
    exists (String.substring 0 30 message).
    split; [reflexivity |]. split; [apply substring_0_prefix |].
    split; [rewrite substring_0_length; fold n; lia |].
    intros Hle. apply substring_0_all. exact Hle.
Qed.

(** ** The programs on concrete inputs *)

#[local] Existing Instance Demo.primitives.

(** The stand-in block function has what the round trip assumes. *)
Lemma Demo_block_length (key blk : list byte) :
  AES.valid_key_size (len key) = true -> len blk = AES.BlockSize ->
  len (aes_Encrypt key blk) = AES.BlockSize.
Proof.
  intros _ Hb. cbn [aes_Encrypt Demo.primitives]. unfold Demo.block_Encrypt, len in *.
  rewrite length_map, length_rev. exact Hb.
Qed.

Lemma Demo_Decrypt_Encrypt (key blk : list byte) :
  AES.valid_key_size (len key) = true -> len blk = AES.BlockSize ->
  aes_Decrypt key (aes_Encrypt key blk) = blk.
Proof.
  intros _ _. cbn [aes_Encrypt aes_Decrypt Demo.primitives].
  unfold Demo.block_Encrypt, Demo.block_Decrypt.
  rewrite map_map.
  rewrite (map_ext _ (fun a => a)).
  - rewrite map_id. apply rev_involutive.
  - intros a. rewrite (xor_byte_comm (Demo.key_byte key) a).
    rewrite (xor_byte_comm (Demo.key_byte key)). apply xor_byte_cancel_r.
Qed.

(** C1 as stated fails: in the first tick of a process, with the RSA
    server up and the ML-KEM server answering 500, the tick is left at the
    ML-KEM fetch and the RSA public-key size gauge, 0 before the tick,
    reads 294. *)
Lemma C1_counterexample :
  Client.tick_outcome Demo.mlkem_down_tick Client.init
    = Client.Aborted Client.FetchMLKEMKey (HTTPStatusError 500) /\
  Client.gauges (Client.tick_state Demo.mlkem_down_tick Client.init)
    Client.rsaPublicKeySize = of_int 294 /\
  Client.gauges (Client.tick_state Demo.mlkem_down_tick Client.init)
    Client.rsaPublicKeySize <> Client.gauges Client.init Client.rsaPublicKeySize.
Proof.
  vm_compute. split; [reflexivity |]. split; [reflexivity | discriminate].
Qed.

(** C1 on that tick. *)
Lemma C1_aborted_tick_witness :
  Client.tick_outcome Demo.mlkem_down_tick Client.init
    = Client.Aborted Client.FetchMLKEMKey (HTTPStatusError 500) /\
  Client.operationCount (Client.tick_state Demo.mlkem_down_tick Client.init)
    = Client.operationCount Client.init /\
  Client.gauges (Client.tick_state Demo.mlkem_down_tick Client.init)
    Client.publicKeySizeRatio = Client.gauges Client.init Client.publicKeySizeRatio /\
  exists k b,
    Client.fetchPublicKey (Client.http_Get Demo.mlkem_down_tick) Client.rsa_url
      = Ok (k, b) /\
    Client.gauges (Client.tick_state Demo.mlkem_down_tick Client.init)
      Client.rsaPublicKeySize = of_int (len b).
Proof.
  assert (Ho : Client.tick_outcome Demo.mlkem_down_tick Client.init
               = Client.Aborted Client.FetchMLKEMKey (HTTPStatusError 500))
    by (vm_compute; reflexivity).
  split; [exact Ho |].
  destruct (C1_aborted_tick Demo.mlkem_down_tick Client.init _ _ Ho)
    as (_ & (Hn & _) & _ & Hg & _ & Hw & _).
  split; [exact Hn |]. split; [apply Hg; cbn; tauto |].
  apply Hw. cbn. tauto.
Defined.

(** C2 as stated fails for the RSA server: the response to a GET declares
    [key_size] 2048 and carries a public key of 294 bytes. *)
Lemma C2_counterexample :
  match Demo.rsa_reply with
  | JSONReply r =>
      payload_size (RSAServer.PublicKey r) = Some 294 /\
      RSAServer.KeySize r = 2048 /\
      payload_size (RSAServer.PublicKey r) <> Some (RSAServer.KeySize r)
  | HTTPError _ => False
  end.
Proof.
  vm_compute. split; [reflexivity |]. split; [reflexivity | discriminate].
Qed.

(** C2 on a GET to each server. *)
Lemma C2_key_size_witness :
  exists m1' r1 m2' r2,
    MLKEMServer.getPublicKeyHandler MethodGet (Demo.stream 1184) 40000 Demo.no_metrics
      = (m1', JSONReply r1) /\
    RSAServer.getPublicKeyHandler MethodGet (Demo.stream 256) (80 * Millisecond)
      Demo.no_metrics = (m2', JSONReply r2) /\
    payload_size (MLKEMServer.PublicKey r1) = Some (MLKEMServer.KeySize r1) /\
    RSAServer.KeySize r2 = 2048.
Proof.
  assert (E1 : exists m1' r1,
             MLKEMServer.getPublicKeyHandler MethodGet (Demo.stream 1184) 40000
               Demo.no_metrics = (m1', JSONReply r1))
    by (vm_compute; eexists; eexists; reflexivity).
  assert (E2 : exists m2' r2,
             RSAServer.getPublicKeyHandler MethodGet (Demo.stream 256)
               (80 * Millisecond) Demo.no_metrics = (m2', JSONReply r2))
    by (vm_compute; eexists; eexists; reflexivity).
  destruct E1 as (m1' & r1 & E1). destruct E2 as (m2' & r2 & E2).
  exists m1', r1, m2', r2.
  split; [exact E1 |]. split; [exact E2 |].
  destruct (C2_key_size _ _ _ _ _ _ _ _ _ _ _ _ E1 E2) as (Hk & Hr & _).
  split; assumption.
Defined.

(** C3 on a tick in which the RSA payload has bytes that are not base64. *)
Lemma C3_malformed_base64_witness :
  Client.malformed_payload Demo.bad_base64_tick Client.FetchRSAKey /\
  Client.tick_outcome Demo.bad_base64_tick Client.init
    = Client.Aborted Client.FetchRSAKey Base64DecodeError /\
  Client.operationCount (Client.tick_state Demo.bad_base64_tick Client.init)
    = Client.operationCount Client.init.
Proof.
  assert (Hbad : Client.malformed_payload Demo.bad_base64_tick Client.FetchRSAKey).
  { exists {| public_key := "MIIBIjANBgkqhkiG9w0BAQEFAAOCAQ8A*%%";
              algorithm := EmptyString;
              key_size := 2048 |}.
    split; reflexivity. }
  split; [exact Hbad |].
  destruct (C3_malformed_base64 Demo.bad_base64_tick Client.init _ Hbad)
    as (_ & Ho & Hn & _).
  split; assumption.
Defined.

(** C4 on a completed tick whose RSA wrap is measured as 0 ns. *)
Lemma C4_zero_denominator_witness :
  Client.zero_denominator Client.DurationRatio (Demo.good_tick 0 40000)
    (Client.tick_outcome (Demo.good_tick 0 40000) Client.init) /\
  Client.completed (Client.tick_outcome (Demo.good_tick 0 40000) Client.init) = true /\
  Client.gauges (Client.tick_state (Demo.good_tick 0 40000) Client.init)
    Client.encryptionDurationRatio
  = Client.gauges Client.init Client.encryptionDurationRatio.
Proof.
  split; [reflexivity |]. split; [vm_compute; reflexivity |].
  apply (C4_zero_denominator Client.DurationRatio). reflexivity.
Defined.

(** C5 on a completed tick that measures 100 ms and 2 ms. *)
Lemma C5_ratios_witness :
  exists s,
    Client.tick_outcome (Demo.good_tick (100 * Millisecond) (2 * Millisecond)) Client.init
      = Client.Done s /\
    Client.gauges
      (Client.tick_state (Demo.good_tick (100 * Millisecond) (2 * Millisecond)) Client.init)
      Client.encryptionDurationRatio = div (of_int 2) (of_int 100).
Proof.
  assert (E : exists s,
             Client.tick_outcome
               (Demo.good_tick (100 * Millisecond) (2 * Millisecond)) Client.init
             = Client.Done s)
    by (vm_compute; eexists; reflexivity).
  destruct E as [s Ho]. exists s. split; [exact Ho |].
  destruct (C5_ratios _ _ _ Ho) as (_ & Hd & _).
  apply Hd; reflexivity.
Defined.

(** C7 with the stand-in block function, on a twelve-byte message. *)
Lemma C7_roundtrip_witness :
  len (Demo.stream 32) = 32 /\ AES.BlockSize <= len (Demo.stream 16) /\
  exists c iv rnd',
    Client.encryptAES (Demo.stream 16)
      (list_byte_of_string "post-quantum") (Demo.stream 32) = (Ok (c, iv), rnd') /\
    len iv = AES.BlockSize /\
    Receiver.decryptAES c (Demo.stream 32) iv = Some (list_byte_of_string "post-quantum").
Proof.
  assert (Hk : len (Demo.stream 32) = 32) by reflexivity.
  assert (Hr : AES.BlockSize <= len (Demo.stream 16)) by (vm_compute; discriminate).
  split; [exact Hk |]. split; [exact Hr |].
  exact (C7_roundtrip Demo_block_length Demo_Decrypt_Encrypt
           (Demo.stream 16) (list_byte_of_string "post-quantum") (Demo.stream 32) Hk Hr).
Defined.

(** C8 as stated fails: after three completed ticks that each measured an
    RSA wrap of 100 ms, the RSA running average is not the [float64] of
    0.1 s, but the next [float64] above it. *)
Lemma C8_counterexample :
  len (Client.completed_ticks Demo.three_ticks Client.init) = 3 /\
  Seconds (100 * Millisecond) = S754_finite false 7205759403792794 (-56) /\
  Client.gauges (Client.run Demo.three_ticks Client.init)
    Client.rsaEncryptionDurationAvg
    = S754_finite false 7205759403792795 (-56) /\
  Client.gauges (Client.run Demo.three_ticks Client.init)
    Client.rsaEncryptionDurationAvg
    <> Seconds (100 * Millisecond).
Proof.
  vm_compute. repeat split; try reflexivity. discriminate.
Qed.

(** C8 on the same three ticks. *)
Lemma C8_running_average_witness :
  1 <= len (Client.completed_ticks Demo.three_ticks Client.init) < 2 ^ 63 /\
  Client.gauges (Client.run Demo.three_ticks Client.init)
    Client.rsaEncryptionDurationAvg
    = div (add (add (add zero (Seconds (100 * Millisecond)))
                    (Seconds (100 * Millisecond)))
               (Seconds (100 * Millisecond)))
          (of_int 3).
Proof.
  assert (Hn : len (Client.completed_ticks Demo.three_ticks Client.init) = 3)
    by (vm_compute; reflexivity).
  assert (Hr : 1 <= len (Client.completed_ticks Demo.three_ticks Client.init) < 2 ^ 63)
    by (rewrite Hn; split; [discriminate | reflexivity]).
  split; [exact Hr |].
  destruct (C8_running_average Demo.three_ticks Hr) as [Ha _].
  rewrite Ha, Hn.
  assert (Hs : map (fun i => Seconds (Client.rsaEncryptDuration i))
                   (Client.completed_ticks Demo.three_ticks Client.init)
               = repeat (Seconds (100 * Millisecond)) 3)
    by (vm_compute; reflexivity).
  rewrite Hs. reflexivity.
Defined.

(** C9 on the first tick of a process, with both servers up. *)
Lemma C9_one_sample_per_tick_witness :
  - 2 ^ 63 <= Client.operationCount Client.init < 2 ^ 63 - 1 /\
  Client.completed (Client.tick_outcome (Demo.good_tick 80000 40000) Client.init) = true /\
  Client.operationCount (Client.tick_state (Demo.good_tick 80000 40000) Client.init) = 1 /\
  Client.rsaTotalDuration (Client.tick_state (Demo.good_tick 80000 40000) Client.init)
    = add zero (Seconds 80000).
Proof.
  assert (Hr : - 2 ^ 63 <= Client.operationCount Client.init < 2 ^ 63 - 1)
    by (split; [discriminate | reflexivity]).
  assert (E : exists s,
             Client.tick_outcome (Demo.good_tick 80000 40000) Client.init = Client.Done s)
    by (vm_compute; eexists; reflexivity).
  split; [exact Hr |].
  pose proof (C9_one_sample_per_tick (Demo.good_tick 80000 40000) Client.init Hr) as H9.
  destruct E as [s Ho]. rewrite Ho in H9 |- *.
  destruct H9 as (Hn & Ht & _).
  split; [reflexivity |]. split; [exact Hn | exact Ht].
Defined.

(** C10 on a message of 32 bytes: a whole block of padding, 48 bytes of
    ciphertext. *)
Lemma C10_padding_and_length_witness :
  exists c iv rnd',
    Client.encryptAES (Demo.stream 16) (Demo.stream 32) (Demo.stream 32)
      = (Ok (c, iv), rnd') /\
    Client.padding_of (Demo.stream 32) = 16 /\
    len c = 48.
Proof.
  assert (E : exists c iv rnd',
             Client.encryptAES (Demo.stream 16) (Demo.stream 32) (Demo.stream 32)
             = (Ok (c, iv), rnd'))
    by (vm_compute; eexists; eexists; eexists; reflexivity).
  destruct E as (c & iv & rnd' & He).
  exists c, iv, rnd'. split; [exact He |].
  destruct (C10_padding_and_length _ _ _ _ _ _ He)
    as (_ & _ & _ & _ & Hl & _ & _ & _ & Hz).
  split; [apply Hz; reflexivity | exact Hl].
Defined.

(** ** More of the programs on concrete inputs *)

(** Three completed ticks and a failed one: the operations counter shows
    4, the operation count is below it. *)
Lemma operations_counter_counts_attempts_witness :
  len Scenario.four_ticks < 2 ^ 63 /\
  Client.encryptionCounter (Client.run Scenario.four_ticks Client.init)
    = len Scenario.four_ticks /\
  Client.operationCount (Client.run Scenario.four_ticks Client.init)
    = len (Client.completed_ticks Scenario.four_ticks Client.init).
Proof.
  assert (Hl : len Scenario.four_ticks < 2 ^ 63) by (vm_compute; reflexivity).
  split; [exact Hl |].
  pose proof (operations_counter_counts_attempts Scenario.four_ticks Hl) as Hw.
  cbv zeta in Hw. destruct Hw as (He & Ho & _). split; [exact He | exact Ho].
Defined.

Example four_ticks_counts :
  Client.encryptionCounter (Client.run Scenario.four_ticks Client.init) = 4 /\
  Client.operationCount (Client.run Scenario.four_ticks Client.init) = 3.
Proof. vm_compute. split; reflexivity. Qed.

(** The key and the IV of a completed tick. *)
Lemma key_and_iv_of_the_stream_witness :
  exists s,
    Client.tick_outcome (Demo.good_tick Second Millisecond) Client.init = Client.Done s /\
    Client.aesKey s
      = firstn 32 (Client.rand_Reader (Demo.good_tick Second Millisecond)) /\
    Client.iv s
      = firstn 16 (skipn 32 (Client.rand_Reader (Demo.good_tick Second Millisecond))).
Proof.
  assert (E : exists s,
             Client.tick_outcome (Demo.good_tick Second Millisecond) Client.init
             = Client.Done s)
    by (vm_compute; eexists; reflexivity).
  destruct E as [s Ho]. exists s. split; [exact Ho |].
  destruct (key_and_iv_of_the_stream _ _ _ Ho) as (Hk & Hv & _).
  split; [exact Hk | exact Hv].
Defined.

(** A tick whose [rand.Reader] runs dry after the key. *)
Lemma AES_steps_fail_for_entropy_only_witness :
  Client.tick_outcome Scenario.dry_tick Client.init
    = Client.Aborted Client.EncryptAES RandReadError /\
  len (Client.rand_Reader Scenario.dry_tick) < 48.
Proof.
  assert (Ho : Client.tick_outcome Scenario.dry_tick Client.init
               = Client.Aborted Client.EncryptAES RandReadError)
    by (vm_compute; reflexivity).
  split; [exact Ho |].
  destruct (AES_steps_fail_for_entropy_only _ _ _ _ Ho (or_intror eq_refl))
    as (_ & Hl & _).
  exact Hl.
Defined.

(** The message and the ciphertext of a completed tick. *)
Lemma every_tick_encrypts_the_one_message_witness :
  exists s,
    Client.tick_outcome (Demo.good_tick Millisecond Second) Client.init = Client.Done s /\
    Client.message s = nth 0 Client.messages EmptyString /\
    len (Client.encryptedMessage s) = 64.
Proof.
  assert (E : exists s,
             Client.tick_outcome (Demo.good_tick Millisecond Second) Client.init
             = Client.Done s)
    by (vm_compute; eexists; reflexivity).
  destruct E as [s Ho]. exists s. split; [exact Ho |].
  destruct (every_tick_encrypts_the_one_message _ _ _ Ho) as (_ & Hm & _ & Hc).
  split; [exact Hm | exact Hc].
Defined.

(** The size gauges after a completed tick. *)
Lemma completed_tick_overwrites_measurements_witness :
  exists s,
    Client.tick_outcome (Demo.good_tick Second Second) Client.init = Client.Done s /\
    Client.gauges (Client.tick_state (Demo.good_tick Second Second) Client.init)
      Client.rsaPublicKeySize = of_int (len (Client.rsaPubKeyBytes s)) /\
    Client.gauges (Client.tick_state (Demo.good_tick Second Second) Client.init)
      Client.mlkemEncryptedKeySize = of_int (len (Client.mlkemCiphertext s)).
Proof.
  assert (E : exists s,
             Client.tick_outcome (Demo.good_tick Second Second) Client.init
             = Client.Done s)
    by (vm_compute; eexists; reflexivity).
  destruct E as [s Ho]. exists s. split; [exact Ho |].
  pose proof (completed_tick_overwrites_measurements _ _ _ Ho) as Hw.
  cbv zeta in Hw. destruct Hw as (H1 & _ & _ & H4 & _).
  split; [exact H1 | exact H4].
Defined.



(** The damaged answer of [Demo.network_bad_base64]: a [*] in the payload. *)
Lemma fetch_refuses_other_base64_witness :
  Client.fetchPublicKey Demo.network_bad_base64 Client.rsa_url = Err Base64DecodeError /\
  Client.fetchMLKEMPublicKey Demo.network_bad_base64 Client.rsa_url
    = Err Base64DecodeError.
Proof.
  assert (Hget : Demo.network_bad_base64 Client.rsa_url
                 = Response StatusOK
                     (JSON {| public_key := "MIIBIjANBgkqhkiG9w0BAQEFAAOCAQ8A*%%";
                              algorithm := EmptyString;
                              key_size := 2048 |}))
    by reflexivity.
  destruct (fetch_refuses_other_base64 _ _ _ Hget) as (H1 & H2 & _).
  - left. exists "*"%char. split; [| repeat split; reflexivity].
    cbn. repeat (first [left; reflexivity | right]).
  - split; [exact H1 | exact H2].
Defined.

(** The client and the reply of the ML-KEM server to a [GET]. *)
Lemma client_reads_the_MLKEM_reply_witness :
  exists r k,
    Demo.mlkem_reply = JSONReply r /\
    MLKEMServer.KeySize r = len (packed k) /\
    Client.fetchMLKEMPublicKey (fun _ => Demo.serve MLKEMServer.to_JSON (JSONReply r))
      Client.mlkem_url
    = match UnmarshalBinaryPublicKey (packed k) with
      | Err _ => Err KeyParseError
      | Ok (KEM_kyber768 mlkemPublicKey) => Ok (mlkemPublicKey, packed k)
      | Ok KEM_other => Err KeyTypeError
      end.
Proof.
  assert (E : exists r, Demo.mlkem_reply = JSONReply r)
    by (vm_compute; eexists; reflexivity).
  destruct E as [r Hr]. exists r.
  assert (Hh : exists m',
             MLKEMServer.getPublicKeyHandler MethodGet (Demo.stream 1184) 40000
               Demo.no_metrics = (m', JSONReply r)).
  { eexists. rewrite <- Hr. unfold Demo.mlkem_reply. apply surjective_pairing. }
  destruct Hh as [m' Hh].
  pose proof (client_reads_the_MLKEM_reply _ _ _ _ _ _ Client.mlkem_url Hh) as Hw.
  cbv zeta beta iota in Hw. destruct Hw as (k & rnd' & _ & Hs & Hf).
  exists k. split; [exact Hr |]. split; [exact Hs | exact Hf].
Defined.

(** The client and the reply of the RSA server to a [GET]. *)
Lemma client_reads_the_RSA_reply_witness :
  exists r pubKeyBytes,
    Demo.rsa_reply = JSONReply r /\
    RSAServer.KeySize r = 2048 /\
    Client.fetchPublicKey (fun _ => Demo.serve RSAServer.to_JSON (JSONReply r))
      Client.rsa_url
    = match ParsePKIXPublicKey pubKeyBytes with
      | Err _ => Err KeyParseError
      | Ok (PKIX_RSA publicKey) => Ok (publicKey, pubKeyBytes)
      | Ok PKIX_other => Err KeyTypeError
      end.
Proof.
  assert (E : exists r, Demo.rsa_reply = JSONReply r)
    by (vm_compute; eexists; reflexivity).
  destruct E as [r Hr]. exists r.
  assert (Hh : exists m',
             RSAServer.getPublicKeyHandler MethodGet (Demo.stream 256)
               (80 * Millisecond) Demo.no_metrics = (m', JSONReply r)).
  { eexists. rewrite <- Hr. unfold Demo.rsa_reply. apply surjective_pairing. }
  destruct Hh as [m' Hh].
  pose proof (client_reads_the_RSA_reply _ _ _ _ _ _ Client.rsa_url Hh) as Hw.
  cbv zeta beta iota in Hw. destruct Hw as (k & rnd' & bs & _ & _ & Hs & Hf).
  exists bs. split; [exact Hr |]. split; [exact Hs | exact Hf].
Defined.

(** Five requests to the ML-KEM server, two of them [GET]s for a key. *)
Lemma MLKEM_server_counts_every_key_request_witness :
  publicKeyRequests
    (snd (fst (MLKEMMain.serve_all Scenario.requests
                 (MLKEMMain.no_requests, Demo.no_metrics))))
  = (publicKeyRequests Demo.no_metrics + count_where key_request Scenario.requests)
      mod 2 ^ 64.
Proof.
  apply (MLKEM_server_counts_every_key_request Scenario.requests).
  unfold Demo.no_metrics. cbn [publicKeyRequests]. lia.
Defined.

(** The two servers on the five requests: the ML-KEM server counts the two
    [GET]s for a key and serves one of them, its generation histogram has
    one observation; the RSA server counts none; each middleware has
    observed the three requests for a key. *)
Example servers_on_five_requests :
  publicKeyRequests
    (snd (fst (MLKEMMain.serve_all Scenario.requests
                 (MLKEMMain.no_requests, Demo.no_metrics)))) = 2 /\
  count_where is_json
    (snd (MLKEMMain.serve_all Scenario.requests
            (MLKEMMain.no_requests, Demo.no_metrics))) = 1 /\
  publicKeyRequests
    (snd (fst (RSAMain.serve_all Scenario.requests
                 (RSAMain.no_requests, Demo.no_metrics)))) = 0 /\
  RSAMain.httpRequestsTotal
    (fst (fst (RSAMain.serve_all Scenario.requests
                 (RSAMain.no_requests, Demo.no_metrics)))) "public-key" "GET" = 2 /\
  len (RSAMain.httpRequestDuration
         (fst (fst (RSAMain.serve_all Scenario.requests
                      (RSAMain.no_requests, Demo.no_metrics)))) "public-key") = 3.
Proof. vm_compute. repeat split; reflexivity. Qed.

(** The message line for the message of the client and for a short one. *)
Example preview_values :
  Report.preview (nth 0 Client.messages EmptyString)
    = Some "量子コンピュータに対..."%string /\
  Report.preview "PQC" = Some "PQC..."%string /\
  Report.preview EmptyString = Some "..."%string.
Proof. vm_compute. repeat split; reflexivity. Qed.
